(** * nu_plugin_socket: a shallow embedding of [socket connect] and
    [socket listen] (src/connect.rs, src/listen.rs).

    The network and the host (Nushell) are modelled as records of oracles;
    each call into them is recorded as an event in a trace, so that the
    order of effects and the absence of effects can be stated. *)

From Stdlib Require Import List ZArith String Ascii Lia Bool.
Import ListNotations.

Set Warnings "-register-all,-abstract-large-number".
Open Scope string_scope.
Open Scope list_scope.
Open Scope Z_scope.

(** ** Results and a writer/error monad (Rust's [Result] and [?]) *)

Inductive result (A E : Type) : Type :=
| Ok (a : A)
| Err (e : E).
Arguments Ok {A E} a.
Arguments Err {A E} e.

(** A computation emits a trace of events of type [Ev] and ends with a
    value or an error; [?] stops at the first error. *)
Definition WE (Ev E A : Type) : Type := (list Ev * result A E)%type.

Definition we_ret {Ev E A} (a : A) : WE Ev E A := ([], Ok a).
Definition we_fail {Ev E A} (e : E) : WE Ev E A := ([], Err e).

Definition we_bind {Ev E A B} (m : WE Ev E A) (k : A -> WE Ev E B) : WE Ev E B :=
  let (evs, r) := m in
  match r with
  | Ok a => let (evs', r') := k a in (evs ++ evs', r')
  | Err e => (evs, Err e)
  end.

(** [map_err] on a result that performs no effect. *)
Definition we_lift {Ev E F A} (r : result A F) (f : F -> E) : WE Ev E A :=
  match r with
  | Ok a => ([], Ok a)
  | Err e => ([], Err (f e))
  end.

(** One call into the environment: the event is recorded, then the
    environment's answer is passed through [map_err f]. *)
Definition we_call {Ev E F A} (ev : Ev) (r : result A F) (f : F -> E) : WE Ev E A :=
  ([ev], match r with Ok a => Ok a | Err e => Err (f e) end).

Notation "x <- m ;; k" := (we_bind m (fun x => k))
  (at level 61, m at next level, right associativity).
Notation "' p <- m ;; k" := (we_bind m (fun x => match x with p => k end))
  (at level 61, p pattern, m at next level, right associativity).

(** ** Integers, bytes, strings *)

Definition byte := Byte.byte.

(** [x as u64] for an [i64] [x] (two's complement reinterpretation). *)
Definition as_u64 (x : Z) : Z := x mod 2 ^ 64.

Definition is_i64 (x : Z) : Prop := - 2 ^ 63 <= x < 2 ^ 63.

(** [u16::try_from(i64)] *)
Inductive TryFromIntError := TryFromIntError_out_of_range.

Definition u16_try_from_i64 (v : Z) : result Z TryFromIntError :=
  if (0 <=? v) && (v <=? 65535) then Ok v else Err TryFromIntError_out_of_range.

(** Decimal rendering of a non-negative integer, as [format!("{}", n)]. *)
Fixpoint digits_rev (fuel : nat) (n : Z) : list ascii :=
  match fuel with
  | O => []
  | S f =>
      let d := ascii_of_nat (48 + Z.to_nat (n mod 10)) in
      if n <? 10 then [d] else d :: digits_rev f (n / 10)
  end.

Definition string_of_Z (n : Z) : string :=
  if n <? 0 then ("-" ++ string_of_list_ascii (rev (digits_rev 25 (- n))))%string
  else string_of_list_ascii (rev (digits_rev 25 n)).

Definition newline : string := String (ascii_of_nat 10) EmptyString.

(** ** Durations: a [std::time::Duration] as a count of nanoseconds *)

Definition Duration := Z.
Definition duration_from_nanos (n : Z) : Duration := n.
Definition duration_from_secs (s : Z) : Duration := s * 1000000000.
Definition duration_from_millis (ms : Z) : Duration := ms * 1000000.

(** ** Nushell values *)

Inductive Value :=
| VString (val : string)
| VBinary (val : list byte)
| VNothing
| VInt (val : Z)
| VBool (val : bool)
| VDuration (val : Z)
| VList (vals : list Value).

(** [Value::get_type] rendered as text. *)
Definition value_type_name (v : Value) : string :=
  match v with
  | VString _ => "string"
  | VBinary _ => "binary"
  | VNothing => "nothing"
  | VInt _ => "int"
  | VBool _ => "bool"
  | VDuration _ => "duration"
  | VList _ => "list<any>"
  end.

(** Source spans that an error label can point at. *)
Inductive Span := Head | Positional (i : nat).

Record LabeledError := mkLabeledError {
  le_msg : string;
  le_help : option string;
  le_label : string;
  le_span : Span
}.

Inductive ShellError :=
| GenericError (error : string) (msg : string) (span : Span) (help : option string)
| HostError (msg : string).

(** [From<ShellError> for LabeledError], used by [?] on host calls. *)
Definition labeled_of_shell (e : ShellError) : LabeledError :=
  match e with
  | GenericError err msg sp help => mkLabeledError err help msg sp
  | HostError msg => mkLabeledError msg None "" Head
  end.

Definition shell_error_debug (e : ShellError) : string :=
  match e with
  | GenericError err msg _ _ => ("GenericError { error: " ++ err ++ ", msg: " ++ msg ++ " }")%string
  | HostError msg => msg
  end.

(** ** Socket addresses *)

Inductive IpAddr :=
| V4 (a b c d : Z)
| V6 (segments : list Z).

Definition SocketAddr := (IpAddr * Z)%type.

Definition is_v4 (a : SocketAddr) : bool :=
  match fst a with V4 _ _ _ _ => true | V6 _ => false end.
Definition is_v6 (a : SocketAddr) : bool := negb (is_v4 a).

(** The literal ["0.0.0.0:0"] given to [UdpSocket::bind], as
    [ToSocketAddrs] parses it (a literal address, no name lookup). *)
Definition udp_bind_addr : SocketAddr := (V4 0 0 0 0, 0).

(** ** The host: [EngineInterface]

    [eng_plugin_timeout] is the process-wide plugin configuration value
    ([$env.config.plugins.socket.timeout]), available through
    [engine.get_config()]; [eng_interrupted k] is the answer of
    [engine.signals().interrupted()] at its [k]-th query. *)
Record Engine := mkEngine {
  eng_plugin_timeout : option Duration;
  eng_interrupted : nat -> bool
}.

(** ** Pipeline data returned to the host *)

Inductive ByteStreamType := BSBinary | BSString | BSUnknown.

(** [ByteStreamSource::Read(Box::new(stream))]: a live TCP stream to
    [peer], read lazily with read timeout [read_timeout]. *)
Inductive ByteStreamSource :=
| SourceTcpStream (peer : SocketAddr) (read_timeout : Duration).

Record ByteStream := mkByteStream {
  bs_source : ByteStreamSource;
  bs_type : ByteStreamType
}.

Inductive PipelineData :=
| PEmpty
| PValue (v : Value)
| PByteStream (bs : ByteStream).

(** ** The network seen by the client *)

Inductive IoEvent :=
| EvResolve (addr : string)
| EvUdpBind (local : SocketAddr)
| EvUdpSetReadTimeout (t : Duration)
| EvUdpSendTo (payload : list byte) (dst : SocketAddr)
| EvUdpRecvFrom (buffer_len : nat)
| EvTcpConnect (dst : SocketAddr) (t : Duration)
| EvTcpSetReadTimeout (t : Duration)
| EvTcpWriteAll (payload : list byte).

(** The answers of the operating system. [net_udp_bind a] is the local
    address the socket is bound to; [net_udp_recv_from local] is the next
    datagram arriving at the socket bound at [local], with its source. *)
Record Net := mkNet {
  net_resolve : string -> result (list SocketAddr) string;
  net_udp_bind : SocketAddr -> result SocketAddr string;
  net_udp_set_read_timeout : Duration -> result unit string;
  net_udp_send_to : SocketAddr -> list byte -> SocketAddr -> result nat string;
  net_udp_recv_from : SocketAddr -> result (list byte * SocketAddr) string;
  net_tcp_connect_timeout : SocketAddr -> Duration -> result unit string;
  net_tcp_set_read_timeout : Duration -> result unit string;
  net_tcp_write_all : list byte -> result unit string
}.

(** A read or receive into [buf]: the kernel copies at most [length buf]
    bytes of the incoming data [d] to the front of the buffer and returns
    the count. *)
Definition recv_into (buf d : list byte) : list byte * nat :=
  let n := Nat.min (List.length d) (List.length buf) in
  (firstn n d ++ skipn n buf, n).

(** [socket.recv_from(&mut buffer)] *)
Definition udp_recv_from (net : Net) (local : SocketAddr) (buf : list byte)
  : result (list byte * nat * SocketAddr) string :=
  match net_udp_recv_from net local with
  | Ok (d, src) => let (buf', n) := recv_into buf d in Ok (buf', n, src)
  | Err e => Err e
  end.

(** The parsed arguments of one [socket connect] call: [host], [port]
    ([i64]), the [--timeout] flag in nanoseconds and the [--udp] switch. *)
Record ConnectCall := mkConnectCall {
  cc_host : string;
  cc_port : Z;
  cc_timeout : option Z;
  cc_udp : bool
}.

Definition CIO := WE IoEvent LabeledError.

Definition unwrap_or {A} (o : option A) (d : A) : A :=
  match o with Some a => a | None => d end.

(** [Duration::from_nanos(timeout_val.unwrap_or(10_000_000_000) as u64)] *)
Definition connect_timeout (timeout_val : option Z) : Duration :=
  duration_from_nanos (as_u64 (unwrap_or timeout_val 10000000000)).

Definition invalid_port_error (e : TryFromIntError) : LabeledError :=
  mkLabeledError "Invalid port number"
    (Some "Port must be between 0 and 65535. Error: out of range integral type conversion attempted")
    "here" (Positional 1).

(** The [match &input_val] of [Connect::run]. *)
Definition input_bytes_of (input_val : Value) : result (list byte) LabeledError :=
  match input_val with
  | VString val => Ok (list_byte_of_string val)
  | VBinary val => Ok val
  | VNothing => Ok []
  | other =>
      Err (mkLabeledError "Unsupported input type"
             (Some ("Expected string or binary, but got " ++ value_type_name other)%string)
             "input originates from here" Head)
  end.

Definition io_error (msg label : string) (sp : Span) (e : string) : LabeledError :=
  mkLabeledError msg (Some e) label sp.

(** [Connect::run]. [input] is the outcome of [input.into_value(head)]. *)
Definition connect_run (engine : Engine) (net : Net) (call : ConnectCall)
    (input : result Value ShellError) : CIO PipelineData :=
  let host := cc_host call in
  port <- we_lift (u16_try_from_i64 (cc_port call)) invalid_port_error ;;
  let use_udp := cc_udp call in
  let timeout := connect_timeout (cc_timeout call) in
  input_val <- we_lift input labeled_of_shell ;;
  input_bytes <- we_lift (input_bytes_of input_val) (fun e => e) ;;
  let addr := (host ++ ":" ++ string_of_Z port)%string in
  addrs <- we_call (EvResolve addr) (net_resolve net addr)
             (io_error "Failed to resolve host" "for this host" (Positional 0)) ;;
  socket_addr <-
    match addrs with
    | a :: _ => we_ret a
    | [] => we_fail (mkLabeledError "No IP addresses found for host" None
                       "for this host" (Positional 0))
    end ;;
  if use_udp then
    local <- we_call (EvUdpBind udp_bind_addr) (net_udp_bind net udp_bind_addr)
               (io_error "Failed to bind UDP socket" "here" Head) ;;
    _ <- we_call (EvUdpSetReadTimeout timeout) (net_udp_set_read_timeout net timeout)
           (io_error "Failed to set UDP read timeout" "here" Head) ;;
    _ <- we_call (EvUdpSendTo input_bytes socket_addr)
           (net_udp_send_to net local input_bytes socket_addr)
           (io_error "Failed to send UDP packet" "here" Head) ;;
    let buffer := repeat Byte.x00 65535 in
    '(buffer', bytes_read, _source_addr) <-
      we_call (EvUdpRecvFrom (List.length buffer)) (udp_recv_from net local buffer)
        (io_error "Failed to receive UDP packet (timed out?)" "here" Head) ;;
    we_ret (PValue (VBinary (firstn bytes_read buffer')))
  else
    _ <- we_call (EvTcpConnect socket_addr timeout)
           (net_tcp_connect_timeout net socket_addr timeout)
           (io_error "Connection timed out or failed" "here" Head) ;;
    _ <- we_call (EvTcpSetReadTimeout timeout) (net_tcp_set_read_timeout net timeout)
           (io_error "Failed to set read timeout" "here" Head) ;;
    _ <- we_call (EvTcpWriteAll input_bytes) (net_tcp_write_all net input_bytes)
           (io_error "Failed to write to socket" "here" Head) ;;
    we_ret (PByteStream (mkByteStream (SourceTcpStream socket_addr timeout) BSUnknown)).

(** ** [handle_connection] (src/listen.rs) *)

(** An accepted [TcpStream], seen through the answers of the operating
    system: [conn_incoming] is the data available to the first [read]. *)
Record Conn := mkConn {
  conn_id : nat;
  conn_set_read_timeout : Duration -> result unit string;
  conn_incoming : result (list byte) string;
  conn_write_all : list byte -> result unit string
}.

(** The closure given to [socket listen], as evaluated by
    [engine.eval_closure] on its single binary argument. *)
Definition Closure := list byte -> result Value ShellError.

Inductive HEvent :=
| HSetReadTimeout (t : Duration)
| HRead (buffer_len : nat)
| HEvalClosure (arg : list byte)
| HWriteAll (bytes : list byte).

Definition HIO := WE HEvent ShellError.

Definition conn_read (stream : Conn) (buf : list byte) : result (list byte * nat) string :=
  match conn_incoming stream with
  | Ok d => Ok (recv_into buf d)
  | Err e => Err e
  end.

(** The [match response_value] of [handle_connection]. *)
Definition response_bytes_of (response_value : Value) : result (list byte) ShellError :=
  match response_value with
  | VString val => Ok (list_byte_of_string val)
  | VBinary val => Ok val
  | other =>
      Err (GenericError "Unsupported closure output"
             ("Expected string or binary from closure, but got " ++ value_type_name other ++ ".")%string
             Head
             (Some "The closure for `socket listen` must return a string or binary value."))
  end.

Definition handle_connection (stream : Conn) (closure : Closure) : HIO unit :=
  let t := duration_from_secs 10 in
  _ <- we_call (HSetReadTimeout t) (conn_set_read_timeout stream t)
         (fun e => GenericError "Failed to set read timeout" e Head None) ;;
  let request_bytes := repeat Byte.x00 4096 in
  '(request_bytes', bytes_read) <-
    we_call (HRead (List.length request_bytes)) (conn_read stream request_bytes)
      (fun e => GenericError "Failed to read from socket" e Head
                  (Some "This can happen if the client disconnects or the read times out.")) ;;
  let positional_arg := firstn bytes_read request_bytes' in
  response_value <- we_call (HEvalClosure positional_arg) (closure positional_arg) (fun e => e) ;;
  response_bytes <- we_lift (response_bytes_of response_value) (fun e => e) ;;
  _ <- we_call (HWriteAll response_bytes) (conn_write_all stream response_bytes)
         (fun e => GenericError "Failed to write to socket" e Head None) ;;
  we_ret tt.

(** A thread spawned by the accept loop: it runs [handle_connection] and
    prints its error, if any, to its standard error. *)
Record Thread := mkThread {
  th_conn : Conn;
  th_events : list HEvent;
  th_result : result unit ShellError;
  th_stderr : list string
}.

Definition spawn_handler (stream : Conn) (closure : Closure) : Thread :=
  let (evs, r) := handle_connection stream closure in
  mkThread stream evs r
    match r with
    | Ok _ => []
    | Err e => [("Error in connection handler: " ++ shell_error_debug e)%string]
    end.

(** ** The accept loop of [Listen::run] *)

Inductive ErrorKind := WouldBlock | OtherKind (name : string).

Inductive AcceptResult :=
| AcceptOk (stream : Conn)
| AcceptErr (kind : ErrorKind) (msg : string).

Inductive LEvent :=
| LBind (addr : string)
| LSetNonblocking
| LEprint (msg : string)
| LCheckSignal (interrupted : bool)
| LAccept (r : AcceptResult)
| LSpawn (stream : Conn)
| LSleep (ms : Z).

(** The listening socket: [ln_accept k] is the answer of the [k]-th call
    of [listener.accept()] in non-blocking mode. *)
Record Listener := mkListener {
  ln_bind : string -> result unit string;
  ln_set_nonblocking : result unit string;
  ln_accept : nat -> AcceptResult
}.

Inductive LoopExit :=
| ExitInterrupted
| ExitSingleShot
| ExitAcceptError (msg : string).

Inductive Next := Continue | Break (x : LoopExit).

Section AcceptLoop.
Variable engine : Engine.
Variable listener : Listener.
Variable closure : Closure.
Variable is_single_shot : bool.

(** The body of [loop { ... }], at iteration [k]. *)
Definition loop_body (k : nat) : list LEvent * list Thread * Next :=
  if eng_interrupted engine k then
    ([LCheckSignal true; LEprint (newline ++ "Server shutting down.")%string], [], Break ExitInterrupted)
  else
    match ln_accept listener k with
    | AcceptOk stream =>
        ([LCheckSignal false; LAccept (AcceptOk stream); LSpawn stream],
         [spawn_handler stream closure],
         if is_single_shot then Break ExitSingleShot else Continue)
    | AcceptErr WouldBlock msg =>
        ([LCheckSignal false; LAccept (AcceptErr WouldBlock msg); LSleep 50], [], Continue)
    | AcceptErr kind msg =>
        ([LCheckSignal false; LAccept (AcceptErr kind msg);
          LEprint ("Error accepting connection: " ++ msg)%string], [], Break (ExitAcceptError msg))
    end.

(** The loop, run for at most [fuel] iterations starting at iteration
    [k]; [None] when it has not left the loop yet. *)
Fixpoint accept_loop (fuel k : nat) : list LEvent * list Thread * option LoopExit :=
  match fuel with
  | O => ([], [], None)
  | S f =>
      let '(evs, ths, nx) := loop_body k in
      match nx with
      | Break x => (evs, ths, Some x)
      | Continue =>
          let '(evs', ths', r) := accept_loop f (S k) in
          (evs ++ evs', ths ++ ths', r)
      end
  end.

End AcceptLoop.

Record ListenCall := mkListenCall {
  lc_host : string;
  lc_port : Z;
  lc_closure : Closure;
  lc_single : bool
}.

(** [Listen::run], run for at most [fuel] loop iterations. *)
Definition listen_run (fuel : nat) (engine : Engine) (listener : Listener) (call : ListenCall)
  : list LEvent * list Thread * option (result PipelineData LabeledError) :=
  let addr := (lc_host call ++ ":" ++ string_of_Z (lc_port call))%string in
  match ln_bind listener addr with
  | Err e => ([LBind addr], [], Some (Err (io_error "Failed to bind to address" "here" Head e)))
  | Ok _ =>
      match ln_set_nonblocking listener with
      | Err e => ([LBind addr; LSetNonblocking], [],
                  Some (Err (io_error "Failed to set listener to non-blocking" "here" Head e)))
      | Ok _ =>
          let pre := [LBind addr; LSetNonblocking;
                      LEprint ("Listening on " ++ addr ++ "... (Press Ctrl+C to stop)")%string] in
          let '(evs, ths, r) :=
            accept_loop engine listener (lc_closure call) (lc_single call) fuel 0 in
          (pre ++ evs, ths,
           match r with
           | Some _ => Some (Ok PEmpty)
           | None => None
           end)
      end
  end.

(** ** Concrete environments used by the examples and witnesses *)

Definition echo_peer : SocketAddr := (V4 127 0 0 1, 7).
Definition udp_responder : SocketAddr := (V4 10 0 0 9, 53).

Definition quiet_engine : Engine := mkEngine None (fun _ => false).

(** A network where every call succeeds; a UDP peer answers with four
    bytes. *)
Definition test_net : Net :=
  mkNet (fun _ => Ok [echo_peer])
        (fun a => Ok a)
        (fun _ => Ok tt)
        (fun _ b _ => Ok (List.length b))
        (fun _ => Ok ([Byte.x01; Byte.x02; Byte.x03; Byte.x04], udp_responder))
        (fun _ _ => Ok tt)
        (fun _ => Ok tt)
        (fun _ => Ok tt).

Definition tcp_call : ConnectCall := mkConnectCall "localhost" 7 None false.
Definition udp_call : ConnectCall := mkConnectCall "localhost" 7 None true.

Example connect_tcp_ping :
  connect_run quiet_engine test_net tcp_call (Ok (VString "ping")) =
  ([EvResolve "localhost:7"; EvTcpConnect echo_peer 10000000000;
    EvTcpSetReadTimeout 10000000000; EvTcpWriteAll (list_byte_of_string "ping")],
   Ok (PByteStream (mkByteStream (SourceTcpStream echo_peer 10000000000) BSUnknown))).
Proof. reflexivity. Qed.

Example connect_bad_port :
  connect_run quiet_engine test_net (mkConnectCall "localhost" 70000 None false) (Ok VNothing) =
  ([], Err (invalid_port_error TryFromIntError_out_of_range)).
Proof. reflexivity. Qed.

Definition echo_conn (n : nat) (req : list byte) : Conn :=
  mkConn n (fun _ => Ok tt) (Ok req) (fun _ => Ok tt).

Definition echo_closure : Closure := fun b => Ok (VBinary b).
Definition int_closure : Closure := fun _ => Ok (VInt 42).

Example handle_echo :
  handle_connection (echo_conn 0 [Byte.x61]) echo_closure =
  ([HSetReadTimeout 10000000000; HRead 4096; HEvalClosure [Byte.x61]; HWriteAll [Byte.x61]], Ok tt).
Proof. vm_compute. reflexivity. Qed.

(** A listener that has one client waiting at its third accept. *)
Definition one_client_listener : Listener :=
  mkListener (fun _ => Ok tt) (Ok tt)
    (fun k => if Nat.eqb k 2 then AcceptOk (echo_conn 0 [Byte.x61])
              else AcceptErr WouldBlock "Resource temporarily unavailable").

Example listen_single_shot :
  fst (fst (listen_run 10 quiet_engine one_client_listener
              (mkListenCall "0.0.0.0" 8080 echo_closure true))) =
  [LBind "0.0.0.0:8080"; LSetNonblocking;
   LEprint "Listening on 0.0.0.0:8080... (Press Ctrl+C to stop)";
   LCheckSignal false; LAccept (AcceptErr WouldBlock "Resource temporarily unavailable"); LSleep 50;
   LCheckSignal false; LAccept (AcceptErr WouldBlock "Resource temporarily unavailable"); LSleep 50;
   LCheckSignal false; LAccept (AcceptOk (echo_conn 0 [Byte.x61])); LSpawn (echo_conn 0 [Byte.x61])].
Proof. reflexivity. Qed.

(** * Properties of [Connect::run] *)

(** The timeout carried by an event, if any. *)
Definition event_timeout (ev : IoEvent) : option Duration :=
  match ev with
  | EvUdpSetReadTimeout t | EvTcpConnect _ t | EvTcpSetReadTimeout t => Some t
  | _ => None
  end.

(** Stepping through [connect_run]: the UDP receive buffer is kept
    abstract so that it is never unfolded. *)
Ltac unfold_connect :=
  unfold connect_run, we_bind, we_lift, we_call, we_ret, we_fail;
  remember (repeat Byte.x00 65535) as buf eqn:Hbuf.

Ltac in_events :=
  simpl; intros H; repeat destruct H as [<-|H]; simpl; congruence || tauto.

Lemma connect_run_timeouts engine net call input ev t :
  In ev (fst (connect_run engine net call input)) -> event_timeout ev = Some t ->
  t = connect_timeout (cc_timeout call).
Proof.
  unfold_connect.
  destruct (u16_try_from_i64 (cc_port call)); [|in_events].
  destruct input; [|in_events].
  destruct (input_bytes_of a0); [|in_events].
  destruct (net_resolve net _); [|in_events].
  destruct a2 as [|sa rest]; [in_events|].
  destruct (cc_udp call).
  - destruct (net_udp_bind net udp_bind_addr); [|in_events].
    destruct (net_udp_set_read_timeout net _); [|in_events].
    destruct (net_udp_send_to net _ _ _); [|in_events].
    destruct (udp_recv_from net _ _) as [[[? ?] ?]|]; in_events.
  - destruct (net_tcp_connect_timeout net _ _); [|in_events].
    destruct (net_tcp_set_read_timeout net _); [|in_events].
    destruct (net_tcp_write_all net _); in_events.
Qed.

Lemma connect_run_engine_unused engine1 engine2 net call input :
  connect_run engine1 net call input = connect_run engine2 net call input.
Proof. reflexivity. Qed.

Lemma connect_timeout_flag n : connect_timeout (Some n) = as_u64 n.
Proof. reflexivity. Qed.

Lemma connect_timeout_default : connect_timeout None = 10000000000.
Proof. reflexivity. Qed.

(** The TCP branch when every step succeeds. *)
Lemma connect_run_tcp_ok engine net call v bytes sa rest :
  0 <= cc_port call <= 65535 ->
  cc_udp call = false ->
  input_bytes_of v = Ok bytes ->
  net_resolve net (cc_host call ++ ":" ++ string_of_Z (cc_port call))%string = Ok (sa :: rest) ->
  net_tcp_connect_timeout net sa (connect_timeout (cc_timeout call)) = Ok tt ->
  net_tcp_set_read_timeout net (connect_timeout (cc_timeout call)) = Ok tt ->
  net_tcp_write_all net bytes = Ok tt ->
  connect_run engine net call (Ok v) =
  ([EvResolve (cc_host call ++ ":" ++ string_of_Z (cc_port call))%string;
    EvTcpConnect sa (connect_timeout (cc_timeout call));
    EvTcpSetReadTimeout (connect_timeout (cc_timeout call)); EvTcpWriteAll bytes],
   Ok (PByteStream (mkByteStream (SourceTcpStream sa (connect_timeout (cc_timeout call))) BSUnknown))).
Proof.
  intros Hp Hudp Hin Hres Hc Ht Hw.
  assert (Hport : u16_try_from_i64 (cc_port call) = Ok (cc_port call)).
  { unfold u16_try_from_i64. destruct Hp as [H0 H1].
    apply Z.leb_le in H0. apply Z.leb_le in H1. now rewrite H0, H1. }
  unfold_connect. rewrite Hport, Hin, Hres, Hudp, Hc, Ht, Hw. reflexivity.
Qed.

(** ** C1 *)

(** C1 (as stated, refuted): with no [--timeout] flag and a plugin
    configuration timeout of 5 s, the deadline given to the TCP connect is
    not the configuration value: it is the built-in 10 s. *)
Lemma C1_config_timeout_ignored :
  ~ (forall engine net call input ev t cfg,
       cc_timeout call = None -> eng_plugin_timeout engine = Some cfg ->
       In ev (fst (connect_run engine net call input)) -> event_timeout ev = Some t ->
       t = cfg).
Proof.
  intros H.
  specialize (H (mkEngine (Some (duration_from_secs 5)) (fun _ => false)) test_net tcp_call
                (Ok VNothing) (EvTcpConnect echo_peer 10000000000) 10000000000
                (duration_from_secs 5) eq_refl eq_refl).
  assert (Hrun : fst (connect_run (mkEngine (Some (duration_from_secs 5)) (fun _ => false))
                        test_net tcp_call (Ok VNothing)) =
                 [EvResolve "localhost:7"; EvTcpConnect echo_peer 10000000000;
                  EvTcpSetReadTimeout 10000000000; EvTcpWriteAll []]) by reflexivity.
  rewrite Hrun in H.
  specialize (H (or_intror (or_introl eq_refl)) eq_refl).
  discriminate H.
Qed.

(** C1 (amended): [Connect::run] never reads the plugin configuration
    (its behaviour is the same under any engine), and every timeout it
    applies (connect deadline, read timeouts) is the [--timeout] flag when
    given (as [u64]), and otherwise the built-in 10 seconds. *)
Theorem C1_effective_timeout engine net call input ev t :
  In ev (fst (connect_run engine net call input)) -> event_timeout ev = Some t ->
  (forall engine', connect_run engine' net call input = connect_run engine net call input) /\
  t = match cc_timeout call with
      | Some n => as_u64 n
      | None => 10000000000
      end.
Proof.
  intros Hin Ht. split.
  - intros engine'. apply connect_run_engine_unused.
  - rewrite (connect_run_timeouts _ _ _ _ _ _ Hin Ht).
    destruct (cc_timeout call); reflexivity.
Qed.

Lemma C1_effective_timeout_witness :
  In (EvTcpConnect echo_peer 10000000000)
     (fst (connect_run (mkEngine (Some (duration_from_secs 5)) (fun _ => false))
                       test_net tcp_call (Ok VNothing))) /\
  10000000000 = 10000000000.
Proof.
  assert (Hin : In (EvTcpConnect echo_peer 10000000000)
     (fst (connect_run (mkEngine (Some (duration_from_secs 5)) (fun _ => false))
                       test_net tcp_call (Ok VNothing)))).
  { right. left. reflexivity. }
  split; [exact Hin|].
  exact (proj2 (C1_effective_timeout _ _ _ _ _ 10000000000 Hin eq_refl)).
Defined.

(** ** C9 *)

Lemma as_u64_negative n : is_i64 n -> n < 0 -> as_u64 n = 2 ^ 64 + n.
Proof.
  unfold is_i64, as_u64. intros Hr Hn.
  symmetry. apply (Z.mod_unique n (2 ^ 64) (-1)); lia.
Qed.

(** C9: a negative [--timeout] [n] is not rejected: it is reinterpreted
    as the [u64] [2^64 + n] nanoseconds, which is the deadline and read
    timeout of every network call, and a TCP call whose network accepts
    that deadline succeeds. *)
Theorem C9_negative_timeout_wraps n engine net call :
  is_i64 n -> n < 0 -> cc_timeout call = Some n ->
  connect_timeout (cc_timeout call) = 2 ^ 64 + n /\
  (forall input ev t, In ev (fst (connect_run engine net call input)) ->
     event_timeout ev = Some t -> t = 2 ^ 64 + n) /\
  (forall v bytes sa rest,
     0 <= cc_port call <= 65535 -> cc_udp call = false -> input_bytes_of v = Ok bytes ->
     net_resolve net (cc_host call ++ ":" ++ string_of_Z (cc_port call))%string = Ok (sa :: rest) ->
     net_tcp_connect_timeout net sa (2 ^ 64 + n) = Ok tt ->
     net_tcp_set_read_timeout net (2 ^ 64 + n) = Ok tt ->
     net_tcp_write_all net bytes = Ok tt ->
     snd (connect_run engine net call (Ok v)) =
     Ok (PByteStream (mkByteStream (SourceTcpStream sa (2 ^ 64 + n)) BSUnknown))).
Proof.
  intros Hr Hn Hflag.
  assert (Ht : connect_timeout (cc_timeout call) = 2 ^ 64 + n).
  { rewrite Hflag, connect_timeout_flag. now apply as_u64_negative. }
  split; [exact Ht|]. split.
  - intros input ev t Hin Hev. rewrite <- Ht. exact (connect_run_timeouts _ _ _ _ _ _ Hin Hev).
  - intros v bytes sa rest Hp Hudp Hb Hres Hc Hs Hw.
    rewrite <- Ht in Hc, Hs |- *.
    now rewrite (connect_run_tcp_ok engine net call v bytes sa rest Hp Hudp Hb Hres Hc Hs Hw).
Qed.

Lemma C9_negative_timeout_wraps_witness :
  connect_timeout (Some (-1)) = 2 ^ 64 - 1 /\
  snd (connect_run quiet_engine test_net (mkConnectCall "localhost" 7 (Some (-1)) false)
         (Ok (VString "ping"))) =
  Ok (PByteStream (mkByteStream (SourceTcpStream echo_peer (2 ^ 64 + -1)) BSUnknown)).
Proof.
  destruct (C9_negative_timeout_wraps (-1) quiet_engine test_net
              (mkConnectCall "localhost" 7 (Some (-1)) false)) as [H1 [_ H3]].
  - unfold is_i64. lia.
  - lia.
  - reflexivity.
  - split; [exact H1|].
    apply (H3 (VString "ping") (list_byte_of_string "ping") echo_peer []);
      simpl; try reflexivity; lia.
Defined.

(** ** C6 *)

Ltac resolve_events :=
  simpl; intros H;
  repeat match goal with H : _ \/ _ |- _ => destruct H end;
  try discriminate; try contradiction;
  match goal with H : EvResolve _ = EvResolve _ |- _ => injection H as <-; eauto end.

Lemma connect_run_resolve engine net call input a :
  In (EvResolve a) (fst (connect_run engine net call input)) ->
  exists p, u16_try_from_i64 (cc_port call) = Ok p /\
            a = (cc_host call ++ ":" ++ string_of_Z p)%string.
Proof.
  unfold_connect.
  destruct (u16_try_from_i64 (cc_port call)) as [p|]; [|in_events].
  destruct input as [iv|]; [|in_events].
  destruct (input_bytes_of iv) as [bytes|]; [|in_events].
  destruct (net_resolve net _) as [addrs|]; [|resolve_events].
  destruct addrs as [|sa rest]; [resolve_events|].
  destruct (cc_udp call).
  - destruct (net_udp_bind net udp_bind_addr); [|resolve_events].
    destruct (net_udp_set_read_timeout net _); [|resolve_events].
    destruct (net_udp_send_to net _ _ _); [|resolve_events].
    destruct (udp_recv_from net _ _) as [[[? ?] ?]|]; resolve_events.
  - destruct (net_tcp_connect_timeout net _ _); [|resolve_events].
    destruct (net_tcp_set_read_timeout net _); [|resolve_events].
    destruct (net_tcp_write_all net _); resolve_events.
Qed.

Lemma u16_try_from_i64_in_range v : 0 <= v <= 65535 -> u16_try_from_i64 v = Ok v.
Proof.
  intros [H0 H1]. unfold u16_try_from_i64.
  apply Z.leb_le in H0. apply Z.leb_le in H1. now rewrite H0, H1.
Qed.

Lemma u16_try_from_i64_out_of_range v :
  ~ (0 <= v <= 65535) -> u16_try_from_i64 v = Err TryFromIntError_out_of_range.
Proof.
  intros H. unfold u16_try_from_i64.
  destruct (0 <=? v) eqn:H0; destruct (v <=? 65535) eqn:H1; try reflexivity.
  apply Z.leb_le in H0. apply Z.leb_le in H1. lia.
Qed.

(** C6: a port in [0, 65535] converts to itself (no truncation) and is
    the port of the address resolved; a port outside that range makes
    the call fail with "Invalid port number", labelled at the port
    argument, before any network call. *)
Theorem C6_port_conversion engine net call input :
  (0 <= cc_port call <= 65535 ->
     u16_try_from_i64 (cc_port call) = Ok (cc_port call) /\
     forall a, In (EvResolve a) (fst (connect_run engine net call input)) ->
       a = (cc_host call ++ ":" ++ string_of_Z (cc_port call))%string) /\
  (~ (0 <= cc_port call <= 65535) ->
     connect_run engine net call input = ([], Err (invalid_port_error TryFromIntError_out_of_range)) /\
     le_msg (invalid_port_error TryFromIntError_out_of_range) = "Invalid port number" /\
     le_span (invalid_port_error TryFromIntError_out_of_range) = Positional 1).
Proof.
  split.
  - intros Hp. pose proof (u16_try_from_i64_in_range _ Hp) as Hc.
    split; [exact Hc|].
    intros a Hin. destruct (connect_run_resolve _ _ _ _ _ Hin) as [p [Hp' ->]].
    rewrite Hc in Hp'. now injection Hp' as <-.
  - intros Hp. split; [|split; reflexivity].
    unfold connect_run, we_bind, we_lift.
    now rewrite (u16_try_from_i64_out_of_range _ Hp).
Qed.

Lemma C6_port_conversion_witness :
  u16_try_from_i64 65535 = Ok 65535 /\
  connect_run quiet_engine test_net (mkConnectCall "localhost" 65536 None false) (Ok VNothing) =
  ([], Err (invalid_port_error TryFromIntError_out_of_range)).
Proof.
  split.
  - refine (proj1 (proj1 (C6_port_conversion quiet_engine test_net
                            (mkConnectCall "localhost" 65535 None false) (Ok VNothing)) _)).
    simpl. lia.
  - refine (proj1 (proj2 (C6_port_conversion quiet_engine test_net
                            (mkConnectCall "localhost" 65536 None false) (Ok VNothing)) _)).
    simpl. lia.
Defined.

(** ** C8 *)

Definition unsupported_input_error (v : Value) : LabeledError :=
  mkLabeledError "Unsupported input type"
    (Some ("Expected string or binary, but got " ++ value_type_name v)%string)
    "input originates from here" Head.

(** C8: a string input is sent as its bytes, a binary input as itself,
    nothing as no bytes; any other input value makes the call fail, with
    no network call at all, and the failure is the unsupported-input type
    error whenever the port is valid. *)
Theorem C8_input_payload engine net call :
  (forall s, input_bytes_of (VString s) = Ok (list_byte_of_string s)) /\
  (forall b, input_bytes_of (VBinary b) = Ok b) /\
  input_bytes_of VNothing = Ok [] /\
  (forall v, (forall s, v <> VString s) -> (forall b, v <> VBinary b) -> v <> VNothing ->
     fst (connect_run engine net call (Ok v)) = [] /\
     (0 <= cc_port call <= 65535 ->
        snd (connect_run engine net call (Ok v)) = Err (unsupported_input_error v))).
Proof.
  split; [reflexivity|]. split; [reflexivity|]. split; [reflexivity|].
  intros v Hs Hb Hn.
  assert (Hv : input_bytes_of v = Err (unsupported_input_error v)).
  { destruct v; try reflexivity.
    - exfalso. now apply (Hs val).
    - exfalso. now apply (Hb val).
    - exfalso. now apply Hn. }
  unfold connect_run, we_bind, we_lift.
  destruct (u16_try_from_i64 (cc_port call)) eqn:Hp.
  - rewrite Hv. split; [reflexivity|]. intros _. reflexivity.
  - split; [reflexivity|]. intros Hr.
    rewrite (u16_try_from_i64_in_range _ Hr) in Hp. discriminate.
Qed.

Lemma C8_input_payload_witness :
  fst (connect_run quiet_engine test_net tcp_call (Ok (VInt 3))) = [] /\
  snd (connect_run quiet_engine test_net tcp_call (Ok (VInt 3))) =
  Err (unsupported_input_error (VInt 3)).
Proof.
  destruct (C8_input_payload quiet_engine test_net tcp_call) as [_ [_ [_ H]]].
  destruct (H (VInt 3)) as [H1 H2]; try discriminate.
  split; [exact H1|]. apply H2. simpl. lia.
Defined.

(** ** C7 *)

Lemma udp_recv_truncate net local buf d src buf' n src' :
  net_udp_recv_from net local = Ok (d, src) ->
  udp_recv_from net local buf = Ok (buf', n, src') ->
  n = Nat.min (List.length d) (List.length buf) /\ firstn n buf' = firstn n d /\ src' = src.
Proof.
  unfold udp_recv_from, recv_into. intros Hr. rewrite Hr.
  intros H. injection H as Hb Hn Hs. subst buf' n src'.
  split; [reflexivity|]. split; [|reflexivity].
  set (n := Nat.min (List.length d) (List.length buf)).
  rewrite firstn_app, length_firstn.
  replace (n - Nat.min n (List.length d))%nat with 0%nat by (unfold n; lia).
  rewrite firstn_O, app_nil_r, firstn_firstn, Nat.min_id. reflexivity.
Qed.

(** C7: on the UDP branch, after a single [send_to] of the payload the
    client makes exactly one [recv_from] with a 65535-byte buffer and
    returns, as one binary value, the received bytes truncated to the count
    received; the result is the same whatever the source of the datagram. *)
Theorem C7_udp_single_receive engine net call v bytes sa rest local sent d src :
  0 <= cc_port call <= 65535 ->
  cc_udp call = true ->
  input_bytes_of v = Ok bytes ->
  net_resolve net (cc_host call ++ ":" ++ string_of_Z (cc_port call))%string = Ok (sa :: rest) ->
  net_udp_bind net udp_bind_addr = Ok local ->
  net_udp_set_read_timeout net (connect_timeout (cc_timeout call)) = Ok tt ->
  net_udp_send_to net local bytes sa = Ok sent ->
  net_udp_recv_from net local = Ok (d, src) ->
  connect_run engine net call (Ok v) =
  ([EvResolve (cc_host call ++ ":" ++ string_of_Z (cc_port call))%string;
    EvUdpBind udp_bind_addr;
    EvUdpSetReadTimeout (connect_timeout (cc_timeout call));
    EvUdpSendTo bytes sa;
    EvUdpRecvFrom 65535],
   Ok (PValue (VBinary (firstn (Nat.min (List.length d) 65535) d)))).
Proof.
  intros Hp Hudp Hb Hres Hbind Ht Hsend Hrecv.
  unfold connect_run, we_bind, we_lift, we_call, we_ret, we_fail.
  rewrite (u16_try_from_i64_in_range _ Hp), Hb, Hres, Hudp, Hbind, Ht, Hsend.
  destruct (udp_recv_from net local (repeat Byte.x00 65535)) as [[[buf' n] src']|] eqn:Hr.
  - destruct (udp_recv_truncate _ _ _ _ _ _ _ _ Hrecv Hr) as [Hn [Hf _]].
    rewrite repeat_length in Hn |- *. rewrite Hf, Hn. reflexivity.
  - unfold udp_recv_from in Hr. rewrite Hrecv in Hr.
    destruct (recv_into _ d). discriminate.
Qed.

Lemma C7_udp_single_receive_witness :
  connect_run quiet_engine test_net udp_call (Ok (VString "time?")) =
  ([EvResolve "localhost:7"; EvUdpBind udp_bind_addr; EvUdpSetReadTimeout 10000000000;
    EvUdpSendTo (list_byte_of_string "time?") echo_peer; EvUdpRecvFrom 65535],
   Ok (PValue (VBinary (firstn (Nat.min 4 65535) [Byte.x01; Byte.x02; Byte.x03; Byte.x04])))).
Proof.
  apply (C7_udp_single_receive quiet_engine test_net udp_call (VString "time?")
           (list_byte_of_string "time?") echo_peer [] udp_bind_addr 5
           [Byte.x01; Byte.x02; Byte.x03; Byte.x04] udp_responder);
    try reflexivity.
  simpl. lia.
Defined.

(** ** C10 *)

Ltac bind_events :=
  simpl; intros H;
  repeat match goal with H : _ \/ _ |- _ => destruct H end;
  try discriminate; try contradiction;
  match goal with H : EvUdpBind _ = EvUdpBind _ |- _ => injection H as <-; reflexivity end.

Lemma connect_run_udp_bind engine net call input a :
  In (EvUdpBind a) (fst (connect_run engine net call input)) -> a = udp_bind_addr.
Proof.
  unfold_connect.
  destruct (u16_try_from_i64 (cc_port call)); [|bind_events].
  destruct input as [iv|]; [|bind_events].
  destruct (input_bytes_of iv); [|bind_events].
  destruct (net_resolve net _) as [addrs|]; [|bind_events].
  destruct addrs as [|sa rest]; [bind_events|].
  destruct (cc_udp call).
  - destruct (net_udp_bind net udp_bind_addr); [|bind_events].
    destruct (net_udp_set_read_timeout net _); [|bind_events].
    destruct (net_udp_send_to net _ _ _); [|bind_events].
    destruct (udp_recv_from net _ _) as [[[? ?] ?]|]; bind_events.
  - destruct (net_tcp_connect_timeout net _ _); [|bind_events].
    destruct (net_tcp_set_read_timeout net _); [|bind_events].
    destruct (net_tcp_write_all net _); bind_events.
Qed.

Section UdpAddressFamily.
Variable net : Net.
(** The operating system binds a socket in the family of the address it
    is given, and refuses a datagram from an IPv4 socket to an IPv6
    destination (Linux: [EAFNOSUPPORT]). *)
Hypothesis bind_keeps_family :
  forall a l, net_udp_bind net a = Ok l -> is_v4 l = is_v4 a.
Hypothesis send_cross_family_fails :
  forall l b dst, is_v4 l = true -> is_v6 dst = true ->
  exists e, net_udp_send_to net l b dst = Err e.

(** C10: the UDP socket is always bound to [0.0.0.0:0]; so when the
    first resolved address is IPv6, resolution and binding succeed but
    the send fails with "Failed to send UDP packet". *)
Theorem C10_udp_ipv4_bind_ipv6_send_fails :
  (forall engine call input a,
     In (EvUdpBind a) (fst (connect_run engine net call input)) -> a = udp_bind_addr) /\
  (forall engine call v bytes sa rest local,
     0 <= cc_port call <= 65535 ->
     cc_udp call = true ->
     input_bytes_of v = Ok bytes ->
     net_resolve net (cc_host call ++ ":" ++ string_of_Z (cc_port call))%string = Ok (sa :: rest) ->
     is_v6 sa = true ->
     net_udp_bind net udp_bind_addr = Ok local ->
     net_udp_set_read_timeout net (connect_timeout (cc_timeout call)) = Ok tt ->
     exists e,
       connect_run engine net call (Ok v) =
       ([EvResolve (cc_host call ++ ":" ++ string_of_Z (cc_port call))%string;
         EvUdpBind udp_bind_addr;
         EvUdpSetReadTimeout (connect_timeout (cc_timeout call));
         EvUdpSendTo bytes sa],
        Err (io_error "Failed to send UDP packet" "here" Head e))).
Proof.
  split.
  - intros engine call input a. apply connect_run_udp_bind.
  - intros engine call v bytes sa rest local Hp Hudp Hb Hres H6 Hbind Ht.
    assert (H4 : is_v4 local = true) by (rewrite (bind_keeps_family _ _ Hbind); reflexivity).
    destruct (send_cross_family_fails local bytes sa H4 H6) as [e He].
    exists e.
    unfold connect_run, we_bind, we_lift, we_call, we_ret, we_fail.
    rewrite (u16_try_from_i64_in_range _ Hp), Hb, Hres, Hudp, Hbind, Ht, He.
    reflexivity.
Qed.

End UdpAddressFamily.

(** A Linux-like network where the name resolves to [::1] first. *)
Definition loopback6 : SocketAddr := (V6 [0; 0; 0; 0; 0; 0; 0; 1], 7).

Definition ipv6_net : Net :=
  mkNet (fun _ => Ok [loopback6])
        (fun a => Ok a)
        (fun _ => Ok tt)
        (fun l b dst => if is_v4 l && is_v6 dst
                        then Err "Address family not supported by protocol (os error 97)"
                        else Ok (List.length b))
        (fun _ => Ok ([Byte.x01], loopback6))
        (fun _ _ => Ok tt)
        (fun _ => Ok tt)
        (fun _ => Ok tt).

Lemma C10_udp_ipv4_bind_ipv6_send_fails_witness :
  exists e,
    connect_run quiet_engine ipv6_net udp_call (Ok (VString "hi")) =
    ([EvResolve "localhost:7"; EvUdpBind udp_bind_addr; EvUdpSetReadTimeout 10000000000;
      EvUdpSendTo (list_byte_of_string "hi") loopback6],
     Err (io_error "Failed to send UDP packet" "here" Head e)).
Proof.
  refine (proj2 (C10_udp_ipv4_bind_ipv6_send_fails ipv6_net _ _)
            quiet_engine udp_call (VString "hi") (list_byte_of_string "hi")
            loopback6 [] udp_bind_addr _ eq_refl eq_refl eq_refl eq_refl eq_refl eq_refl).
  - intros a l H. simpl in H. injection H as <-. reflexivity.
  - intros l b dst H4 H6. simpl. rewrite H4, H6. simpl. eexists. reflexivity.
  - simpl. lia.
Defined.

(** * Properties of [Listen::run] *)

Definition is_accept (ev : LEvent) : bool :=
  match ev with LAccept _ => true | _ => false end.

Definition count_accepts (evs : list LEvent) : nat := List.length (filter is_accept evs).

(** The connections handed to a spawned thread, in order. *)
Fixpoint spawned_conns (evs : list LEvent) : list Conn :=
  match evs with
  | [] => []
  | LSpawn c :: evs' => c :: spawned_conns evs'
  | _ :: evs' => spawned_conns evs'
  end.

Lemma spawned_conns_app l1 l2 :
  spawned_conns (l1 ++ l2) = spawned_conns l1 ++ spawned_conns l2.
Proof.
  induction l1 as [|ev l1 IH]; [reflexivity|].
  destruct ev; simpl; rewrite ?IH; reflexivity.
Qed.

Lemma count_accepts_app l1 l2 :
  count_accepts (l1 ++ l2) = (count_accepts l1 + count_accepts l2)%nat.
Proof. unfold count_accepts. now rewrite filter_app, length_app. Qed.

Ltac body_cases engine listener k :=
  unfold loop_body;
  destruct (eng_interrupted engine k) eqn:?;
  [|destruct (ln_accept listener k) as [?|[|?] ?] eqn:?].

Section LoopFacts.
Variable engine : Engine.
Variable listener : Listener.
Variable closure : Closure.
Variable single : bool.

Abbreviation body := (loop_body engine listener closure single).
Abbreviation aloop := (accept_loop engine listener closure single).

Lemma body_accept_error k e t nx kind msg :
  body k = (e, t, nx) -> In (LAccept (AcceptErr kind msg)) e -> kind <> WouldBlock ->
  nx = Break (ExitAcceptError msg) /\ t = [] /\
  e = [LCheckSignal false; LAccept (AcceptErr kind msg);
       LEprint ("Error accepting connection: " ++ msg)%string].
Proof.
  body_cases engine listener k; intros Hb; try destruct single;
    injection Hb as <- <- <-; simpl; intros Hin Hk;
    repeat match goal with H : _ \/ _ |- _ => destruct H end;
    try discriminate; try contradiction;
    match goal with H : LAccept _ = LAccept _ |- _ => injection H; intros; subst end;
    try congruence; auto.
Qed.

Lemma body_threads k :
  snd (fst (body k)) = map (fun c => spawn_handler c closure) (spawned_conns (fst (fst (body k)))).
Proof. body_cases engine listener k; try destruct single; reflexivity. Qed.

Lemma body_events_closure closure' k :
  fst (fst (loop_body engine listener closure' single k)) = fst (fst (body k)) /\
  snd (loop_body engine listener closure' single k) = snd (body k).
Proof. body_cases engine listener k; try destruct single; split; reflexivity. Qed.

Lemma body_count_accepts k : (count_accepts (fst (fst (body k))) <= 1)%nat.
Proof. unfold count_accepts. body_cases engine listener k; try destruct single; simpl; lia. Qed.

Lemma accept_loop_accept_error fuel k evs ths r kind msg :
  aloop fuel k = (evs, ths, r) -> In (LAccept (AcceptErr kind msg)) evs -> kind <> WouldBlock ->
  r = Some (ExitAcceptError msg) /\
  exists pre, evs = pre ++ [LAccept (AcceptErr kind msg);
                            LEprint ("Error accepting connection: " ++ msg)%string].
Proof.
  revert k evs ths r. induction fuel as [|f IH]; intros k evs ths r.
  - simpl. intros H. injection H as <- <- <-. simpl. tauto.
  - simpl. destruct (body k) as [[e t] nx] eqn:Hb. destruct nx as [|x].
    + destruct (aloop f (S k)) as [[e' t'] r'] eqn:Hl.
      intros H. injection H as <- <- <-. intros Hin Hk.
      apply in_app_or in Hin. destruct Hin as [Hin|Hin].
      * destruct (body_accept_error _ _ _ _ _ _ Hb Hin Hk) as [Hc _]. discriminate.
      * destruct (IH _ _ _ _ Hl Hin Hk) as [-> [pre ->]].
        split; [reflexivity|]. exists (e ++ pre). now rewrite app_assoc.
    + intros H. injection H as <- <- <-. intros Hin Hk.
      destruct (body_accept_error _ _ _ _ _ _ Hb Hin Hk) as [Hx [_ ->]].
      injection Hx as ->. split; [reflexivity|].
      exists [LCheckSignal false]. reflexivity.
Qed.

Lemma accept_loop_threads fuel k :
  snd (fst (aloop fuel k)) = map (fun c => spawn_handler c closure) (spawned_conns (fst (fst (aloop fuel k)))).
Proof.
  revert k. induction fuel as [|f IH]; intros k; [reflexivity|].
  simpl. pose proof (body_threads k) as Ht.
  destruct (body k) as [[e t] nx]. simpl in Ht. destruct nx as [|x]; [|exact Ht].
  specialize (IH (S k)). destruct (aloop f (S k)) as [[e' t'] r']. simpl in *.
  rewrite spawned_conns_app, map_app, Ht, IH. reflexivity.
Qed.

Lemma accept_loop_closure closure' fuel k :
  fst (fst (accept_loop engine listener closure' single fuel k)) = fst (fst (aloop fuel k)) /\
  snd (accept_loop engine listener closure' single fuel k) = snd (aloop fuel k).
Proof.
  revert k. induction fuel as [|f IH]; intros k; [split; reflexivity|].
  simpl. destruct (body_events_closure closure' k) as [He Hn].
  destruct (loop_body engine listener closure' single k) as [[e1 t1] n1].
  destruct (body k) as [[e2 t2] n2]. simpl in He, Hn. subst e1 n1.
  destruct n2 as [|x]; [|split; reflexivity].
  destruct (IH (S k)) as [He' Hr'].
  destruct (accept_loop engine listener closure' single f (S k)) as [[e1' t1'] r1'].
  destruct (aloop f (S k)) as [[e2' t2'] r2']. simpl in *. subst. split; reflexivity.
Qed.

End LoopFacts.

Definition listen_addr (call : ListenCall) : string :=
  (lc_host call ++ ":" ++ string_of_Z (lc_port call))%string.

Definition listen_prelude (call : ListenCall) : list LEvent :=
  [LBind (listen_addr call); LSetNonblocking;
   LEprint ("Listening on " ++ listen_addr call ++ "... (Press Ctrl+C to stop)")%string].

(** [Listen::run] either fails while binding, or runs the accept loop
    after its prelude and returns [PipelineData::empty()] once the loop is
    left, whatever the reason. *)
Lemma listen_run_cases fuel engine listener call evs ths r :
  listen_run fuel engine listener call = (evs, ths, r) ->
  (exists e, evs = [LBind (listen_addr call)] /\ ths = [] /\ r = Some (Err e)) \/
  (exists e, evs = [LBind (listen_addr call); LSetNonblocking] /\ ths = [] /\ r = Some (Err e)) \/
  (exists levs r',
     accept_loop engine listener (lc_closure call) (lc_single call) fuel 0 = (levs, ths, r') /\
     evs = listen_prelude call ++ levs /\
     r = match r' with Some _ => Some (Ok PEmpty) | None => None end).
Proof.
  unfold listen_run. fold (listen_addr call).
  destruct (ln_bind listener (listen_addr call)).
  - destruct (ln_set_nonblocking listener).
    + destruct (accept_loop engine listener (lc_closure call) (lc_single call) fuel 0)
        as [[levs t] r'] eqn:Hl.
      intros H. injection H as <- <- <-. right. right. eauto.
    + intros H. injection H as <- <- <-. right. left. eauto.
  - intros H. injection H as <- <- <-. left. eauto.
Qed.

(** ** C2 *)

(** A listener whose first accept fails with an error other than
    [WouldBlock]. *)
Definition failing_listener : Listener :=
  mkListener (fun _ => Ok tt) (Ok tt)
    (fun _ => AcceptErr (OtherKind "ConnectionAborted")
                "Software caused connection abort (os error 103)").

Definition server_call : ListenCall := mkListenCall "127.0.0.1" 8080 echo_closure false.

(** C2 (as stated, refuted): after a fatal accept error the server
    invocation does not return an error: [Listen::run] returns
    [Ok(PipelineData::empty())]. *)
Lemma C2_accept_error_not_surfaced :
  ~ (forall fuel engine listener call evs ths r kind msg,
       listen_run fuel engine listener call = (evs, ths, Some r) ->
       In (LAccept (AcceptErr kind msg)) evs -> kind <> WouldBlock ->
       exists e, r = Err e).
Proof.
  intros H.
  destruct (H 1%nat quiet_engine failing_listener server_call
              (fst (fst (listen_run 1 quiet_engine failing_listener server_call)))
              [] (Ok PEmpty) (OtherKind "ConnectionAborted")
              "Software caused connection abort (os error 103)" eq_refl)
    as [e He].
  - simpl. right. right. right. right. left. reflexivity.
  - discriminate.
  - discriminate.
Qed.

(** C2 (amended): an accept error other than "would block" stops the
    loop at once (it is the last accept, followed only by the message
    printed to standard error), and the server invocation then returns the
    successful empty result [Ok(PipelineData::empty())]. *)
Theorem C2_fatal_accept_error_stops_loop fuel engine listener call evs ths r kind msg :
  listen_run fuel engine listener call = (evs, ths, r) ->
  In (LAccept (AcceptErr kind msg)) evs -> kind <> WouldBlock ->
  r = Some (Ok PEmpty) /\
  exists pre, evs = pre ++ [LAccept (AcceptErr kind msg);
                            LEprint ("Error accepting connection: " ++ msg)%string].
Proof.
  intros Hrun Hin Hk.
  destruct (listen_run_cases _ _ _ _ _ _ _ Hrun)
    as [[e [-> [_ _]]]|[[e [-> [_ _]]]|[levs [r' [Hl [-> ->]]]]]].
  - simpl in Hin. destruct Hin as [H|[]]. discriminate.
  - simpl in Hin. destruct Hin as [H|[H|[]]]; discriminate.
  - apply in_app_or in Hin. destruct Hin as [Hin|Hin].
    + simpl in Hin. destruct Hin as [H|[H|[H|[]]]]; discriminate.
    + destruct (accept_loop_accept_error _ _ _ _ _ _ _ _ _ _ _ Hl Hin Hk) as [-> [pre ->]].
      split; [reflexivity|]. exists (listen_prelude call ++ pre). now rewrite app_assoc.
Qed.

Lemma C2_fatal_accept_error_stops_loop_witness :
  Some (Ok PEmpty) = Some (Ok (A := PipelineData) (E := LabeledError) PEmpty) /\
  exists pre, fst (fst (listen_run 1 quiet_engine failing_listener server_call)) =
    pre ++ [LAccept (AcceptErr (OtherKind "ConnectionAborted")
                       "Software caused connection abort (os error 103)");
            LEprint ("Error accepting connection: " ++
                     "Software caused connection abort (os error 103)")%string].
Proof.
  apply (C2_fatal_accept_error_stops_loop 1 quiet_engine failing_listener server_call
           (fst (fst (listen_run 1 quiet_engine failing_listener server_call)))
           [] (Some (Ok PEmpty)) (OtherKind "ConnectionAborted")
           "Software caused connection abort (os error 103)").
  - reflexivity.
  - simpl. right. right. right. right. left. reflexivity.
  - discriminate.
Defined.

(** ** C3 *)

Definition unsupported_output_error (v : Value) : ShellError :=
  GenericError "Unsupported closure output"
    ("Expected string or binary from closure, but got " ++ value_type_name v ++ ".")%string
    Head
    (Some "The closure for `socket listen` must return a string or binary value.").

Lemma recv_into_prefix buf d :
  snd (recv_into buf d) = Nat.min (List.length d) (List.length buf) /\
  firstn (snd (recv_into buf d)) (fst (recv_into buf d)) = firstn (snd (recv_into buf d)) d.
Proof.
  unfold recv_into. simpl. split; [reflexivity|].
  set (n := Nat.min (List.length d) (List.length buf)).
  rewrite firstn_app, length_firstn.
  replace (n - Nat.min n (List.length d))%nat with 0%nat by (unfold n; lia).
  rewrite firstn_O, app_nil_r, firstn_firstn, Nat.min_id. reflexivity.
Qed.

Lemma handle_connection_bad_output stream closure data v :
  conn_set_read_timeout stream (duration_from_secs 10) = Ok tt ->
  conn_incoming stream = Ok data ->
  closure (firstn (Nat.min (List.length data) 4096) data) = Ok v ->
  (forall s, v <> VString s) -> (forall b, v <> VBinary b) ->
  handle_connection stream closure =
  ([HSetReadTimeout (duration_from_secs 10); HRead 4096;
    HEvalClosure (firstn (Nat.min (List.length data) 4096) data)],
   Err (unsupported_output_error v)).
Proof.
  intros Ht Hd Hc Hs Hb.
  assert (Hv : response_bytes_of v = Err (unsupported_output_error v)).
  { destruct v; try reflexivity; exfalso; [eapply Hs|eapply Hb]; reflexivity. }
  unfold handle_connection, we_bind, we_call, we_lift, we_ret.
  remember (repeat Byte.x00 4096) as buf eqn:Hbuf.
  assert (Hlen : @List.length byte buf = 4096%nat) by (subst buf; apply repeat_length).
  rewrite Ht. unfold conn_read. rewrite Hd.
  destruct (recv_into_prefix buf data) as [Hn Hf]. revert Hn Hf.
  destruct (recv_into buf data) as [buf' n]. simpl. intros Hn Hf.
  rewrite Hf, Hn, Hlen, Hc, Hv. simpl.
  rewrite Hbuf, repeat_length. reflexivity.
Qed.

(** Replacing every accepted connection [c] by [f c]: a connection with
    the same place in the accept sequence but any other behaviour (reads
    that fail, writes that fail, other data). *)
Definition map_accept (f : Conn -> Conn) (r : AcceptResult) : AcceptResult :=
  match r with
  | AcceptOk c => AcceptOk (f c)
  | AcceptErr kind msg => AcceptErr kind msg
  end.

Definition listener_map (f : Conn -> Conn) (l : Listener) : Listener :=
  mkListener (ln_bind l) (ln_set_nonblocking l) (fun k => map_accept f (ln_accept l k)).

Definition map_levent (f : Conn -> Conn) (ev : LEvent) : LEvent :=
  match ev with
  | LAccept r => LAccept (map_accept f r)
  | LSpawn c => LSpawn (f c)
  | ev => ev
  end.

Lemma spawned_conns_map f evs :
  spawned_conns (map (map_levent f) evs) = map f (spawned_conns evs).
Proof.
  induction evs as [|ev evs IH]; [reflexivity|].
  destruct ev as [| | | |[]| |]; simpl; rewrite ?IH; reflexivity.
Qed.

Lemma body_map_conns engine listener closure single f k :
  fst (fst (loop_body engine (listener_map f listener) closure single k)) =
    map (map_levent f) (fst (fst (loop_body engine listener closure single k))) /\
  snd (loop_body engine (listener_map f listener) closure single k) =
    snd (loop_body engine listener closure single k).
Proof.
  unfold loop_body, listener_map. simpl.
  destruct (eng_interrupted engine k); [split; reflexivity|].
  destruct (ln_accept listener k) as [c|[|n] m]; simpl; try destruct single; split; reflexivity.
Qed.

Lemma accept_loop_map_conns engine listener closure single f fuel k :
  fst (fst (accept_loop engine (listener_map f listener) closure single fuel k)) =
    map (map_levent f) (fst (fst (accept_loop engine listener closure single fuel k))) /\
  snd (accept_loop engine (listener_map f listener) closure single fuel k) =
    snd (accept_loop engine listener closure single fuel k).
Proof.
  revert k. induction fuel as [|g IH]; intros k; [split; reflexivity|].
  simpl. destruct (body_map_conns engine listener closure single f k) as [He Hn].
  destruct (loop_body engine (listener_map f listener) closure single k) as [[e1 t1] n1].
  destruct (loop_body engine listener closure single k) as [[e2 t2] n2].
  simpl in He, Hn. subst e1 n1.
  destruct n2 as [|x]; [|split; reflexivity].
  destruct (IH (S k)) as [He' Hr'].
  destruct (accept_loop engine (listener_map f listener) closure single g (S k)) as [[e1' t1'] r1'].
  destruct (accept_loop engine listener closure single g (S k)) as [[e2' t2'] r2'].
  simpl in *. subst. rewrite map_app. split; reflexivity.
Qed.

(** A connection whose peer resets it before sending anything. *)
Definition reset_conn : Conn :=
  mkConn 3 (fun _ => Ok tt) (Err "Connection reset by peer (os error 104)") (fun _ => Ok tt).

(** C3: a closure result that is neither a string nor binary makes the
    handler fail with the "Unsupported closure output" error before any
    write. Every error of a handler (setting the timeout, read, closure,
    output conversion, write) is its thread's result and is printed to
    that thread's standard error, and only then. The accept loop never
    depends on what the handlers do: its events and its result are the
    same for every closure; replacing the accepted connections by ones
    with any other behaviour (failing reads or writes included) only
    replaces them in the events, with the same exit and the same result;
    and each spawned thread is the handler of its own connection only. *)
Theorem C3_handler_errors_confined :
  (forall stream closure data v,
     conn_set_read_timeout stream (duration_from_secs 10) = Ok tt ->
     conn_incoming stream = Ok data ->
     closure (firstn (Nat.min (List.length data) 4096) data) = Ok v ->
     (forall s, v <> VString s) -> (forall b, v <> VBinary b) ->
     th_result (spawn_handler stream closure) = Err (unsupported_output_error v) /\
     (forall bs, ~ In (HWriteAll bs) (th_events (spawn_handler stream closure))) /\
     th_stderr (spawn_handler stream closure) =
       [("Error in connection handler: " ++ shell_error_debug (unsupported_output_error v))%string]) /\
  (forall stream closure,
     th_result (spawn_handler stream closure) = snd (handle_connection stream closure) /\
     (forall e, snd (handle_connection stream closure) = Err e ->
        th_stderr (spawn_handler stream closure) =
          [("Error in connection handler: " ++ shell_error_debug e)%string]) /\
     (snd (handle_connection stream closure) = Ok tt -> th_stderr (spawn_handler stream closure) = [])) /\
  (forall fuel engine listener call closure',
     let call' := mkListenCall (lc_host call) (lc_port call) closure' (lc_single call) in
     fst (fst (listen_run fuel engine listener call')) = fst (fst (listen_run fuel engine listener call)) /\
     snd (listen_run fuel engine listener call') = snd (listen_run fuel engine listener call) /\
     snd (fst (listen_run fuel engine listener call)) =
       map (fun c => spawn_handler c (lc_closure call))
           (spawned_conns (fst (fst (listen_run fuel engine listener call))))) /\
  (forall fuel engine listener call f,
     fst (fst (listen_run fuel engine (listener_map f listener) call)) =
       map (map_levent f) (fst (fst (listen_run fuel engine listener call))) /\
     snd (listen_run fuel engine (listener_map f listener) call) = snd (listen_run fuel engine listener call) /\
     snd (fst (listen_run fuel engine (listener_map f listener) call)) =
       map (fun c => spawn_handler (f c) (lc_closure call))
           (spawned_conns (fst (fst (listen_run fuel engine listener call))))).
Proof.
  split; [|split; [|split]].
  - intros stream closure data v Ht Hd Hc Hs Hb.
    unfold spawn_handler. rewrite (handle_connection_bad_output _ _ _ _ Ht Hd Hc Hs Hb).
    simpl. split; [reflexivity|]. split; [|reflexivity].
    intros bs H. simpl in H.
    repeat match goal with H : _ \/ _ |- _ => destruct H end; try discriminate; contradiction.
  - intros stream closure. unfold spawn_handler.
    destruct (handle_connection stream closure) as [evs [u|e]]; simpl.
    + split; [reflexivity|]. split; [discriminate|reflexivity].
    + split; [reflexivity|]. split; [|discriminate]. intros e' He. now injection He as ->.
  - intros fuel engine listener call closure' call'.
    unfold listen_run, call'. simpl.
    destruct (ln_bind listener _); [|simpl; auto].
    destruct (ln_set_nonblocking listener); [|simpl; auto].
    destruct (accept_loop_closure engine listener (lc_closure call) (lc_single call) closure' fuel 0)
      as [He Hr].
    pose proof (accept_loop_threads engine listener (lc_closure call) (lc_single call) fuel 0) as Hth.
    destruct (accept_loop engine listener closure' (lc_single call) fuel 0) as [[e1 t1] r1].
    destruct (accept_loop engine listener (lc_closure call) (lc_single call) fuel 0) as [[e2 t2] r2].
    simpl in *. subst. auto.
  - intros fuel engine listener call f.
    unfold listen_run. simpl.
    destruct (ln_bind listener _); [|simpl; auto].
    destruct (ln_set_nonblocking listener); [|simpl; auto].
    destruct (accept_loop_map_conns engine listener (lc_closure call) (lc_single call) f fuel 0)
      as [He Hr].
    pose proof (accept_loop_threads engine (listener_map f listener) (lc_closure call) (lc_single call) fuel 0) as Hth'.
    destruct (accept_loop engine (listener_map f listener) (lc_closure call) (lc_single call) fuel 0)
      as [[e1 t1] r1].
    destruct (accept_loop engine listener (lc_closure call) (lc_single call) fuel 0) as [[e2 t2] r2].
    simpl in *. subst e1 r1. simpl.
    rewrite Hth', spawned_conns_map, map_map. auto.
Qed.

Lemma C3_handler_errors_confined_witness :
  (th_result (spawn_handler (echo_conn 0 [Byte.x61]) int_closure) =
     Err (unsupported_output_error (VInt 42)) /\
   (forall bs, ~ In (HWriteAll bs) (th_events (spawn_handler (echo_conn 0 [Byte.x61]) int_closure))) /\
   th_stderr (spawn_handler (echo_conn 0 [Byte.x61]) int_closure) =
     [("Error in connection handler: " ++ shell_error_debug (unsupported_output_error (VInt 42)))%string]) /\
  th_stderr (spawn_handler reset_conn echo_closure) =
    [("Error in connection handler: " ++
      shell_error_debug (GenericError "Failed to read from socket" "Connection reset by peer (os error 104)" Head
                           (Some "This can happen if the client disconnects or the read times out.")))%string].
Proof.
  split.
  - apply (proj1 C3_handler_errors_confined (echo_conn 0 [Byte.x61]) int_closure [Byte.x61] (VInt 42));
      try reflexivity; intros; discriminate.
  - apply (proj1 (proj2 (proj1 (proj2 C3_handler_errors_confined) reset_conn echo_closure))).
    unfold handle_connection, we_bind, we_call, we_lift, we_ret. simpl.
    reflexivity.
Defined.

(** ** C4 *)

Ltac no_event :=
  simpl; intros ? H;
  repeat match goal with H : _ \/ _ |- _ => destruct H end; try discriminate; contradiction.

Lemma body_single_shot engine listener closure k e t nx :
  loop_body engine listener closure true k = (e, t, nx) ->
  (forall c, In (LSpawn c) e ->
     nx = Break ExitSingleShot /\ t = [spawn_handler c closure] /\
     e = [LCheckSignal false; LAccept (AcceptOk c); LSpawn c]) /\
  (nx = Continue ->
     (forall c, ~ In (LAccept (AcceptOk c)) e) /\ (forall c, ~ In (LSpawn c) e) /\ t = []).
Proof.
  body_cases engine listener k; intros Hb; injection Hb as <- <- <-.
  - split; [no_event|intros H; discriminate].
  - split; [|intros H; discriminate].
    intros c H. simpl in H.
    repeat match goal with H : _ \/ _ |- _ => destruct H end; try discriminate; try contradiction.
    match goal with H : LSpawn _ = LSpawn _ |- _ => injection H as -> end. auto.
  - split; [no_event|]. intros _. split; [no_event|]. split; [no_event|reflexivity].
  - split; [no_event|intros H; discriminate].
Qed.

Lemma accept_loop_single_shot engine listener closure fuel k evs ths r c :
  accept_loop engine listener closure true fuel k = (evs, ths, r) -> In (LSpawn c) evs ->
  r = Some ExitSingleShot /\ ths = [spawn_handler c closure] /\
  exists pre, evs = pre ++ [LAccept (AcceptOk c); LSpawn c] /\
              forall c', ~ In (LAccept (AcceptOk c')) pre.
Proof.
  revert k evs ths r. induction fuel as [|f IH]; intros k evs ths r.
  - simpl. intros H. injection H as <- <- <-. simpl. tauto.
  - simpl. destruct (loop_body engine listener closure true k) as [[e t] nx] eqn:Hb.
    destruct (body_single_shot _ _ _ _ _ _ _ Hb) as [Hsp Hcont].
    destruct nx as [|x].
    + destruct (Hcont eq_refl) as [Hacc [Hspn ->]].
      destruct (accept_loop engine listener closure true f (S k)) as [[e' t'] r'] eqn:Hl.
      intros H. injection H as <- <- <-. intros Hin.
      apply in_app_or in Hin. destruct Hin as [Hin|Hin]; [exfalso; exact (Hspn c Hin)|].
      destruct (IH _ _ _ _ Hl Hin) as [-> [-> [pre [-> Hpre]]]].
      split; [reflexivity|]. split; [reflexivity|].
      exists (e ++ pre). split; [now rewrite app_assoc|].
      intros c' H. apply in_app_or in H. destruct H as [H|H]; [exact (Hacc c' H)|exact (Hpre c' H)].
    + intros H. injection H as <- <- <-. intros Hin.
      destruct (Hsp c Hin) as [Hx [-> ->]]. injection Hx as ->.
      split; [reflexivity|]. split; [reflexivity|].
      exists [LCheckSignal false]. split; [reflexivity|].
      intros c' H. simpl in H. destruct H as [H|[]]. discriminate.
Qed.

(** C4: in single-shot mode, the loop stops right after dispatching the
    handler of the first accepted connection: the spawn is the last event
    of the server (nothing waits for the handler), no connection was
    accepted before it, exactly one handler thread exists, and the server
    returns. *)
Theorem C4_single_shot_stops_after_dispatch fuel engine listener call evs ths r c :
  lc_single call = true ->
  listen_run fuel engine listener call = (evs, ths, r) ->
  In (LSpawn c) evs ->
  r = Some (Ok PEmpty) /\ ths = [spawn_handler c (lc_closure call)] /\
  exists pre, evs = pre ++ [LAccept (AcceptOk c); LSpawn c] /\
              forall c', ~ In (LAccept (AcceptOk c')) pre.
Proof.
  intros Hs Hrun Hin.
  destruct (listen_run_cases _ _ _ _ _ _ _ Hrun)
    as [[e [-> [_ _]]]|[[e [-> [_ _]]]|[levs [r' [Hl [-> ->]]]]]].
  - simpl in Hin. destruct Hin as [H|[]]. discriminate.
  - simpl in Hin. destruct Hin as [H|[H|[]]]; discriminate.
  - rewrite Hs in Hl.
    apply in_app_or in Hin. destruct Hin as [Hin|Hin].
    + simpl in Hin. destruct Hin as [H|[H|[H|[]]]]; discriminate.
    + destruct (accept_loop_single_shot _ _ _ _ _ _ _ _ _ Hl Hin) as [-> [-> [pre [-> Hpre]]]].
      split; [reflexivity|]. split; [reflexivity|].
      exists (listen_prelude call ++ pre). split; [now rewrite app_assoc|].
      intros c' H. apply in_app_or in H. destruct H as [H|H]; [|exact (Hpre c' H)].
      simpl in H. destruct H as [H|[H|[H|[]]]]; discriminate.
Qed.

Lemma C4_single_shot_stops_after_dispatch_witness :
  Some (Ok PEmpty) = Some (Ok (A := PipelineData) (E := LabeledError) PEmpty) /\
  snd (fst (listen_run 10 quiet_engine one_client_listener
              (mkListenCall "0.0.0.0" 8080 echo_closure true))) =
    [spawn_handler (echo_conn 0 [Byte.x61]) echo_closure] /\
  exists pre, fst (fst (listen_run 10 quiet_engine one_client_listener
                          (mkListenCall "0.0.0.0" 8080 echo_closure true))) =
    pre ++ [LAccept (AcceptOk (echo_conn 0 [Byte.x61])); LSpawn (echo_conn 0 [Byte.x61])] /\
    forall c', ~ In (LAccept (AcceptOk c')) pre.
Proof.
  apply (C4_single_shot_stops_after_dispatch 10 quiet_engine one_client_listener
           (mkListenCall "0.0.0.0" 8080 echo_closure true)
           (fst (fst (listen_run 10 quiet_engine one_client_listener
                        (mkListenCall "0.0.0.0" 8080 echo_closure true))))
           (snd (fst (listen_run 10 quiet_engine one_client_listener
                        (mkListenCall "0.0.0.0" 8080 echo_closure true))))
           (Some (Ok PEmpty)) (echo_conn 0 [Byte.x61])).
  - reflexivity.
  - reflexivity.
  - rewrite listen_single_shot. simpl. tauto.
Defined.

(** ** C5 *)

(** C5: every iteration of the accept loop starts with the one and only
    check of the cancellation signal; when the signal is set the iteration
    makes no accept and leaves the loop; an accept that would block is
    followed by a 50 ms sleep and then by the next iteration, which starts
    with the check; and once the signal stays set from iteration [m] on,
    the loop has terminated by iteration [m] and made no accept from
    iteration [m] on (at most one per iteration before it). *)
Theorem C5_cancellation_polling engine listener closure single :
  (forall k, exists rest,
     fst (fst (loop_body engine listener closure single k)) =
       LCheckSignal (eng_interrupted engine k) :: rest /\
     forall b, ~ In (LCheckSignal b) rest) /\
  (forall k, eng_interrupted engine k = true ->
     loop_body engine listener closure single k =
     ([LCheckSignal true; LEprint (newline ++ "Server shutting down.")%string], [],
      Break ExitInterrupted)) /\
  (forall k msg f,
     eng_interrupted engine k = false -> ln_accept listener k = AcceptErr WouldBlock msg ->
     accept_loop engine listener closure single (S f) k =
     let '(evs, ths, r) := accept_loop engine listener closure single f (S k) in
     ([LCheckSignal false; LAccept (AcceptErr WouldBlock msg); LSleep 50] ++ evs, ths, r)) /\
  (forall m, (forall j, (m <= j)%nat -> eng_interrupted engine j = true) ->
     forall fuel k, (k <= m)%nat -> (m - k < fuel)%nat ->
     exists evs ths x,
       accept_loop engine listener closure single fuel k = (evs, ths, Some x) /\
       (count_accepts evs <= m - k)%nat).
Proof.
  split; [|split; [|split]].
  - intros k. body_cases engine listener k; try destruct single;
      eexists; (split; [reflexivity|]); no_event.
  - intros k Hi. unfold loop_body. now rewrite Hi.
  - intros k msg f Hi Ha. simpl. unfold loop_body at 1. rewrite Hi, Ha.
    destruct (accept_loop engine listener closure single f (S k)) as [[e t] r].
    reflexivity.
  - intros m Hm fuel. induction fuel as [|f IH]; intros k Hk Hf; [lia|].
    destruct (Nat.eq_dec k m) as [->|Hne].
    + exists [LCheckSignal true; LEprint (newline ++ "Server shutting down.")%string], [],
        ExitInterrupted.
      simpl. unfold loop_body at 1. rewrite (Hm m (le_n m)). split; [reflexivity|].
      unfold count_accepts. simpl. lia.
    + simpl. pose proof (body_count_accepts engine listener closure single k) as Hc.
      destruct (loop_body engine listener closure single k) as [[e t] nx]. simpl in Hc.
      destruct nx as [|x].
      * destruct (IH (S k) ltac:(lia) ltac:(lia)) as [e' [t' [x [Hl Hc']]]].
        rewrite Hl. exists (e ++ e'), (t ++ t'), x. split; [reflexivity|].
        rewrite count_accepts_app. lia.
      * exists e, t, x. split; [reflexivity|]. lia.
Qed.

Definition cancelled_engine : Engine := mkEngine None (fun _ => true).

Lemma C5_cancellation_polling_witness :
  exists evs ths x,
    accept_loop cancelled_engine one_client_listener echo_closure false 1 0 = (evs, ths, Some x) /\
    (count_accepts evs <= 0 - 0)%nat.
Proof.
  apply (proj2 (proj2 (proj2 (C5_cancellation_polling cancelled_engine one_client_listener
                                  echo_closure false))) 0%nat).
  - intros j _. reflexivity.
  - lia.
  - lia.
Defined.

(** * Further properties of the code *)

(** Case analysis on every answer of the environment in a run. *)
Ltac split_run :=
  repeat (simpl; match goal with
  | |- context [match ?x with Ok _ => _ | Err _ => _ end] =>
      let H := fresh "Hm" in destruct x eqn:H
  | |- context [match ?x with [] => _ | _ :: _ => _ end] =>
      let H := fresh "Hm" in destruct x eqn:H
  | |- context [if ?x then _ else _] =>
      let H := fresh "Hm" in destruct x eqn:H
  | |- context [match ?x with (_, _) => _ end] => is_var x; destruct x
  end).

Ltac list_cases :=
  repeat match goal with H : _ \/ _ |- _ => destruct H end;
  try discriminate; try contradiction; subst.

Definition is_udp_event (ev : IoEvent) : bool :=
  match ev with
  | EvUdpBind _ | EvUdpSetReadTimeout _ | EvUdpSendTo _ _ | EvUdpRecvFrom _ => true
  | _ => false
  end.

Definition is_tcp_event (ev : IoEvent) : bool :=
  match ev with
  | EvTcpConnect _ _ | EvTcpSetReadTimeout _ | EvTcpWriteAll _ => true
  | _ => false
  end.

(** The client resolves the endpoint exactly once, and before any other
    network call: its trace is empty or starts with the one resolution. *)
Theorem connect_resolves_first engine net call input :
  fst (connect_run engine net call input) = [] \/
  exists a rest, fst (connect_run engine net call input) = EvResolve a :: rest /\
                 forall a', ~ In (EvResolve a') rest.
Proof.
  unfold_connect. split_run;
    first [left; reflexivity
          | right; do 2 eexists; split; [reflexivity|]; intros a' H; simpl in H; list_cases].
Qed.

(** The two protocols never mix: a UDP call makes no TCP call and a TCP
    call no UDP call. *)
Theorem connect_protocols_disjoint engine net call input ev :
  In ev (fst (connect_run engine net call input)) ->
  (cc_udp call = true -> is_tcp_event ev = false) /\
  (cc_udp call = false -> is_udp_event ev = false).
Proof.
  unfold_connect. split_run; intros H; simpl in H; list_cases;
    split; intros; first [reflexivity | congruence].
Qed.

Lemma connect_protocols_disjoint_witness :
  (cc_udp tcp_call = true -> is_tcp_event (EvTcpConnect echo_peer 10000000000) = false) /\
  (cc_udp tcp_call = false -> is_udp_event (EvTcpConnect echo_peer 10000000000) = false).
Proof.
  apply (connect_protocols_disjoint quiet_engine test_net tcp_call (Ok VNothing)).
  right. left. reflexivity.
Defined.

(** Every datagram sent and every TCP write carries exactly the payload
    derived from the input value. *)
Theorem connect_sends_input_bytes engine net call v ev :
  In ev (fst (connect_run engine net call (Ok v))) ->
  (forall p d, ev = EvUdpSendTo p d -> input_bytes_of v = Ok p) /\
  (forall p, ev = EvTcpWriteAll p -> input_bytes_of v = Ok p).
Proof.
  unfold_connect. split_run; intros H; simpl in H; list_cases;
    split; intros; congruence.
Qed.

Lemma connect_sends_input_bytes_witness :
  (forall p d, EvTcpWriteAll (list_byte_of_string "ping") = EvUdpSendTo p d ->
               input_bytes_of (VString "ping") = Ok p) /\
  (forall p, EvTcpWriteAll (list_byte_of_string "ping") = EvTcpWriteAll p ->
             input_bytes_of (VString "ping") = Ok p).
Proof.
  apply (connect_sends_input_bytes quiet_engine test_net tcp_call (VString "ping")).
  right. right. right. left. reflexivity.
Defined.

(** A failed name resolution, or one that yields no address, ends the call
    with an error labelled at the host argument, after the resolution and
    before any socket is created. *)
Theorem connect_resolution_errors engine net call v bytes :
  0 <= cc_port call <= 65535 ->
  input_bytes_of v = Ok bytes ->
  (forall e, net_resolve net (cc_host call ++ ":" ++ string_of_Z (cc_port call))%string = Err e ->
     connect_run engine net call (Ok v) =
     ([EvResolve (cc_host call ++ ":" ++ string_of_Z (cc_port call))%string],
      Err (mkLabeledError "Failed to resolve host" (Some e) "for this host" (Positional 0)))) /\
  (net_resolve net (cc_host call ++ ":" ++ string_of_Z (cc_port call))%string = Ok [] ->
     connect_run engine net call (Ok v) =
     ([EvResolve (cc_host call ++ ":" ++ string_of_Z (cc_port call))%string],
      Err (mkLabeledError "No IP addresses found for host" None "for this host" (Positional 0)))).
Proof.
  intros Hp Hb. split; [intros e Hr|intros Hr];
    unfold connect_run, we_bind, we_lift, we_call, we_ret, we_fail;
    rewrite (u16_try_from_i64_in_range _ Hp), Hb, Hr; reflexivity.
Qed.

Definition no_address_net : Net :=
  mkNet (fun _ => Ok []) (fun a => Ok a) (fun _ => Ok tt) (fun _ b _ => Ok (List.length b))
        (fun _ => Err "unused") (fun _ _ => Ok tt) (fun _ => Ok tt) (fun _ => Ok tt).

Lemma connect_resolution_errors_witness :
  connect_run quiet_engine no_address_net tcp_call (Ok VNothing) =
  ([EvResolve "localhost:7"],
   Err (mkLabeledError "No IP addresses found for host" None "for this host" (Positional 0))).
Proof.
  apply (proj2 (connect_resolution_errors quiet_engine no_address_net tcp_call VNothing []
                  ltac:(simpl; lia) eq_refl)).
  reflexivity.
Defined.

(** A failure of the host while collecting the input is returned as is,
    with no network call. *)
Theorem connect_input_error engine net call e :
  0 <= cc_port call <= 65535 ->
  connect_run engine net call (Err e) = ([], Err (labeled_of_shell e)).
Proof.
  intros Hp. unfold connect_run, we_bind, we_lift.
  now rewrite (u16_try_from_i64_in_range _ Hp).
Qed.

Lemma connect_input_error_witness :
  connect_run quiet_engine test_net tcp_call (Err (HostError "stream closed")) =
  ([], Err (labeled_of_shell (HostError "stream closed"))).
Proof. apply connect_input_error. simpl. lia. Defined.

(** The TCP branch stops at the first failing step: a failed connect
    writes nothing, a failed read-timeout setting writes nothing, and a
    failed write is reported as such; each error is labelled at the call. *)
Theorem connect_tcp_errors engine net call v bytes sa rest e :
  0 <= cc_port call <= 65535 -> cc_udp call = false -> input_bytes_of v = Ok bytes ->
  net_resolve net (cc_host call ++ ":" ++ string_of_Z (cc_port call))%string = Ok (sa :: rest) ->
  let t := connect_timeout (cc_timeout call) in
  let addr := (cc_host call ++ ":" ++ string_of_Z (cc_port call))%string in
  (net_tcp_connect_timeout net sa t = Err e ->
     connect_run engine net call (Ok v) =
     ([EvResolve addr; EvTcpConnect sa t], Err (io_error "Connection timed out or failed" "here" Head e))) /\
  (net_tcp_connect_timeout net sa t = Ok tt -> net_tcp_set_read_timeout net t = Err e ->
     connect_run engine net call (Ok v) =
     ([EvResolve addr; EvTcpConnect sa t; EvTcpSetReadTimeout t],
      Err (io_error "Failed to set read timeout" "here" Head e))) /\
  (net_tcp_connect_timeout net sa t = Ok tt -> net_tcp_set_read_timeout net t = Ok tt ->
     net_tcp_write_all net bytes = Err e ->
     connect_run engine net call (Ok v) =
     ([EvResolve addr; EvTcpConnect sa t; EvTcpSetReadTimeout t; EvTcpWriteAll bytes],
      Err (io_error "Failed to write to socket" "here" Head e))).
Proof.
  intros Hp Hudp Hb Hr t addr.
  split; [|split]; intros;
    unfold connect_run, we_bind, we_lift, we_call, we_ret, we_fail;
    rewrite (u16_try_from_i64_in_range _ Hp), Hb, Hr, Hudp; fold t;
    repeat match goal with H : _ = _ |- _ => rewrite H end; reflexivity.
Qed.

Definition refusing_net : Net :=
  mkNet (fun _ => Ok [echo_peer]) (fun a => Ok a) (fun _ => Ok tt) (fun _ b _ => Ok (List.length b))
        (fun _ => Err "unused") (fun _ _ => Err "Connection refused (os error 111)")
        (fun _ => Ok tt) (fun _ => Ok tt).

Lemma connect_tcp_errors_witness :
  connect_run quiet_engine refusing_net tcp_call (Ok (VString "ping")) =
  ([EvResolve "localhost:7"; EvTcpConnect echo_peer 10000000000],
   Err (io_error "Connection timed out or failed" "here" Head "Connection refused (os error 111)")).
Proof.
  apply (proj1 (connect_tcp_errors quiet_engine refusing_net tcp_call (VString "ping")
                  (list_byte_of_string "ping") echo_peer [] "Connection refused (os error 111)"
                  ltac:(simpl; lia) eq_refl eq_refl eq_refl)).
  reflexivity.
Defined.

(** The UDP branch stops at the first failing step: a failed bind sends
    nothing, and a receive that fails (typically on the read timeout) is
    reported after exactly one datagram was sent and one receive made. *)
Theorem connect_udp_errors engine net call v bytes sa rest local sent e :
  0 <= cc_port call <= 65535 -> cc_udp call = true -> input_bytes_of v = Ok bytes ->
  net_resolve net (cc_host call ++ ":" ++ string_of_Z (cc_port call))%string = Ok (sa :: rest) ->
  let t := connect_timeout (cc_timeout call) in
  let addr := (cc_host call ++ ":" ++ string_of_Z (cc_port call))%string in
  (net_udp_bind net udp_bind_addr = Err e ->
     connect_run engine net call (Ok v) =
     ([EvResolve addr; EvUdpBind udp_bind_addr], Err (io_error "Failed to bind UDP socket" "here" Head e))) /\
  (net_udp_bind net udp_bind_addr = Ok local -> net_udp_set_read_timeout net t = Ok tt ->
     net_udp_send_to net local bytes sa = Ok sent -> net_udp_recv_from net local = Err e ->
     connect_run engine net call (Ok v) =
     ([EvResolve addr; EvUdpBind udp_bind_addr; EvUdpSetReadTimeout t; EvUdpSendTo bytes sa;
       EvUdpRecvFrom 65535],
      Err (io_error "Failed to receive UDP packet (timed out?)" "here" Head e))).
Proof.
  intros Hp Hudp Hb Hr t addr. split.
  - intros Hbind. unfold connect_run, we_bind, we_lift, we_call, we_ret, we_fail.
    rewrite (u16_try_from_i64_in_range _ Hp), Hb, Hr, Hudp, Hbind. reflexivity.
  - intros Hbind Ht Hs Hrecv.
    unfold connect_run, we_bind, we_lift, we_call, we_ret, we_fail.
    rewrite (u16_try_from_i64_in_range _ Hp), Hb, Hr, Hudp, Hbind. fold t. rewrite Ht, Hs.
    unfold udp_recv_from. rewrite Hrecv, repeat_length. reflexivity.
Qed.

Definition silent_net : Net :=
  mkNet (fun _ => Ok [udp_responder]) (fun a => Ok a) (fun _ => Ok tt)
        (fun _ b _ => Ok (List.length b))
        (fun _ => Err "Resource temporarily unavailable (os error 11)")
        (fun _ _ => Ok tt) (fun _ => Ok tt) (fun _ => Ok tt).

Lemma connect_udp_errors_witness :
  connect_run quiet_engine silent_net udp_call (Ok VNothing) =
  ([EvResolve "localhost:7"; EvUdpBind udp_bind_addr; EvUdpSetReadTimeout 10000000000;
    EvUdpSendTo [] udp_responder; EvUdpRecvFrom 65535],
   Err (io_error "Failed to receive UDP packet (timed out?)" "here" Head
          "Resource temporarily unavailable (os error 11)")).
Proof.
  apply (proj2 (connect_udp_errors quiet_engine silent_net udp_call VNothing [] udp_responder []
                  udp_bind_addr 0 "Resource temporarily unavailable (os error 11)"
                  ltac:(simpl; lia) eq_refl eq_refl eq_refl)); reflexivity.
Defined.

(** ** [handle_connection] *)

(** A handler whose read succeeds and whose closure returns a string or
    binary value writes exactly those bytes back, once, and succeeds. *)
Theorem handle_connection_success stream closure data v resp :
  conn_set_read_timeout stream (duration_from_secs 10) = Ok tt ->
  conn_incoming stream = Ok data ->
  closure (firstn (Nat.min (List.length data) 4096) data) = Ok v ->
  response_bytes_of v = Ok resp ->
  conn_write_all stream resp = Ok tt ->
  handle_connection stream closure =
  ([HSetReadTimeout (duration_from_secs 10); HRead 4096;
    HEvalClosure (firstn (Nat.min (List.length data) 4096) data); HWriteAll resp], Ok tt).
Proof.
  intros Ht Hd Hc Hv Hw.
  unfold handle_connection, we_bind, we_call, we_lift, we_ret.
  remember (repeat Byte.x00 4096) as buf eqn:Hbuf.
  assert (Hlen : @List.length byte buf = 4096%nat) by (subst buf; apply repeat_length).
  rewrite Ht. unfold conn_read. rewrite Hd.
  destruct (recv_into_prefix buf data) as [Hn Hf]. revert Hn Hf.
  destruct (recv_into buf data) as [buf' n]. simpl. intros Hn Hf.
  rewrite Hf, Hn, Hlen, Hc, Hv, Hw. simpl.
  rewrite Hbuf, repeat_length. reflexivity.
Qed.

Lemma handle_connection_success_witness :
  handle_connection (echo_conn 0 [Byte.x61]) (fun _ => Ok (VString "ok")) =
  ([HSetReadTimeout (duration_from_secs 10); HRead 4096;
    HEvalClosure (firstn (Nat.min (List.length [Byte.x61]) 4096) [Byte.x61]);
    HWriteAll (list_byte_of_string "ok")], Ok tt).
Proof.
  apply (handle_connection_success (echo_conn 0 [Byte.x61]) (fun _ => Ok (VString "ok"))
           [Byte.x61] (VString "ok") (list_byte_of_string "ok")); reflexivity.
Defined.

(** The closure always receives a prefix of the incoming data of at most
    4096 bytes; when fewer bytes arrived it receives all of them. *)
Theorem handle_connection_request_prefix stream closure arg :
  In (HEvalClosure arg) (fst (handle_connection stream closure)) ->
  exists data, conn_incoming stream = Ok data /\
    arg = firstn (Nat.min (List.length data) 4096) data /\
    (List.length arg <= 4096)%nat /\
    ((List.length data <= 4096)%nat -> arg = data).
Proof.
  unfold handle_connection, we_bind, we_call, we_lift, we_ret.
  remember (repeat Byte.x00 4096) as buf eqn:Hbuf.
  assert (Hlen : @List.length byte buf = 4096%nat) by (subst buf; apply repeat_length).
  destruct (conn_set_read_timeout stream _); [|simpl; intros [H|[]]; discriminate].
  unfold conn_read. destruct (conn_incoming stream) as [data|e];
    [|simpl; intros H; list_cases].
  destruct (recv_into_prefix buf data) as [Hn Hf]. revert Hn Hf.
  destruct (recv_into buf data) as [buf' n]. simpl. intros Hn Hf.
  rewrite Hf, Hn, Hlen.
  assert (Hgoal : exists d, @Ok _ string data = Ok d /\
            firstn (Nat.min (List.length data) 4096) data = firstn (Nat.min (List.length d) 4096) d /\
            (List.length (firstn (Nat.min (List.length data) 4096) data) <= 4096)%nat /\
            ((List.length d <= 4096)%nat -> firstn (Nat.min (List.length data) 4096) data = d)).
  { exists data. split; [reflexivity|]. split; [reflexivity|].
    rewrite length_firstn. split; [lia|].
    intros Hle. rewrite Nat.min_l by exact Hle. apply firstn_all. }
  destruct (closure _) as [rv|]; [destruct (response_bytes_of rv) as [rb|]; [destruct (conn_write_all stream rb)|]|];
    simpl; intros H; list_cases;
    match goal with H : HEvalClosure _ = HEvalClosure _ |- _ => injection H as <- end; exact Hgoal.
Qed.

Lemma handle_connection_request_prefix_witness :
  exists data, conn_incoming (echo_conn 0 [Byte.x61]) = Ok data /\
    [Byte.x61] = firstn (Nat.min (List.length data) 4096) data /\
    (List.length [Byte.x61] <= 4096)%nat /\
    ((List.length data <= 4096)%nat -> [Byte.x61] = data).
Proof.
  apply (handle_connection_request_prefix (echo_conn 0 [Byte.x61]) echo_closure).
  rewrite handle_echo. simpl. tauto.
Defined.

(** A failed read ends the handler before the closure runs and before
    anything is written; an error of the closure is returned unchanged,
    and nothing is written either. *)
Theorem handle_connection_failures stream closure e :
  conn_set_read_timeout stream (duration_from_secs 10) = Ok tt ->
  (conn_incoming stream = Err e ->
     handle_connection stream closure =
     ([HSetReadTimeout (duration_from_secs 10); HRead 4096],
      Err (GenericError "Failed to read from socket" e Head
             (Some "This can happen if the client disconnects or the read times out.")))) /\
  (forall data err, conn_incoming stream = Ok data ->
     closure (firstn (Nat.min (List.length data) 4096) data) = Err err ->
     handle_connection stream closure =
     ([HSetReadTimeout (duration_from_secs 10); HRead 4096;
       HEvalClosure (firstn (Nat.min (List.length data) 4096) data)], Err err)).
Proof.
  intros Ht.
  unfold handle_connection, we_bind, we_call, we_lift, we_ret.
  remember (repeat Byte.x00 4096) as buf eqn:Hbuf.
  assert (Hlen : @List.length byte buf = 4096%nat) by (subst buf; apply repeat_length).
  rewrite Ht. unfold conn_read. split.
  - intros Hd. rewrite Hd. simpl. rewrite Hbuf, repeat_length. reflexivity.
  - intros data err Hd Hc. rewrite Hd.
    destruct (recv_into_prefix buf data) as [Hn Hf]. revert Hn Hf.
    destruct (recv_into buf data) as [buf' n]. simpl. intros Hn Hf.
    rewrite Hf, Hn, Hlen, Hc. simpl. rewrite Hbuf, repeat_length. reflexivity.
Qed.

Definition dropped_conn : Conn :=
  mkConn 1 (fun _ => Ok tt) (Err "Connection reset by peer (os error 104)") (fun _ => Ok tt).

Lemma handle_connection_failures_witness :
  handle_connection dropped_conn echo_closure =
  ([HSetReadTimeout (duration_from_secs 10); HRead 4096],
   Err (GenericError "Failed to read from socket" "Connection reset by peer (os error 104)" Head
          (Some "This can happen if the client disconnects or the read times out."))).
Proof.
  apply (proj1 (handle_connection_failures dropped_conn echo_closure
                  "Connection reset by peer (os error 104)" eq_refl)).
  reflexivity.
Defined.

Definition is_write (ev : HEvent) : bool :=
  match ev with HWriteAll _ => true | _ => false end.

(** A handler writes at most once, and only the bytes of a string or
    binary value the closure returned for the request it evaluated. *)
Theorem handle_connection_writes_only_output stream closure :
  (List.length (filter is_write (fst (handle_connection stream closure))) <= 1)%nat /\
  forall bs, In (HWriteAll bs) (fst (handle_connection stream closure)) ->
    exists arg v, In (HEvalClosure arg) (fst (handle_connection stream closure)) /\
                  closure arg = Ok v /\ response_bytes_of v = Ok bs.
Proof.
  unfold handle_connection, we_bind, we_call, we_lift, we_ret.
  remember (repeat Byte.x00 4096) as buf eqn:Hbuf.
  destruct (conn_set_read_timeout stream _);
    [|split; [simpl; lia|simpl; intros bs H; list_cases]].
  unfold conn_read. destruct (conn_incoming stream) as [data|e];
    [|split; [simpl; lia|simpl; intros bs H; list_cases]].
  destruct (recv_into buf data) as [buf' n].
  destruct (closure (firstn n buf')) as [rv|] eqn:Hc;
    [|split; [simpl; lia|simpl; intros bs H; list_cases]].
  destruct (response_bytes_of rv) as [rb|] eqn:Hv;
    [|split; [simpl; lia|simpl; intros bs H; list_cases]].
  destruct (conn_write_all stream rb);
    (split; [simpl; lia|]); simpl; intros bs H; list_cases;
    injection H as <-; exists (firstn n buf'), rv; simpl; auto.
Qed.

(** ** [Listen::run] *)

(** A failed bind ends [socket listen] with an error labelled at the call,
    before the loop: no accept is made and no handler is spawned. *)
Theorem listen_bind_failure fuel engine listener call e :
  ln_bind listener (listen_addr call) = Err e ->
  listen_run fuel engine listener call =
  ([LBind (listen_addr call)], [],
   Some (Err (io_error "Failed to bind to address" "here" Head e))).
Proof. intros H. unfold listen_run. fold (listen_addr call). now rewrite H. Qed.

Definition busy_listener : Listener :=
  mkListener (fun _ => Err "Address already in use (os error 98)") (Ok tt)
    (fun _ => AcceptErr WouldBlock "Resource temporarily unavailable").

Lemma listen_bind_failure_witness :
  listen_run 3 quiet_engine busy_listener server_call =
  ([LBind "127.0.0.1:8080"], [],
   Some (Err (io_error "Failed to bind to address" "here" Head "Address already in use (os error 98)"))).
Proof. apply (listen_bind_failure 3 quiet_engine busy_listener server_call). reflexivity. Defined.

(** A failed switch to non-blocking mode ends [socket listen] with an
    error after the bind, before any accept. *)
Theorem listen_nonblocking_failure fuel engine listener call u e :
  ln_bind listener (listen_addr call) = Ok u ->
  ln_set_nonblocking listener = Err e ->
  listen_run fuel engine listener call =
  ([LBind (listen_addr call); LSetNonblocking], [],
   Some (Err (io_error "Failed to set listener to non-blocking" "here" Head e))).
Proof. intros Hb Hn. unfold listen_run. fold (listen_addr call). now rewrite Hb, Hn. Qed.

Definition blocking_listener : Listener :=
  mkListener (fun _ => Ok tt) (Err "Operation not supported (os error 95)")
    (fun _ => AcceptErr WouldBlock "Resource temporarily unavailable").

Lemma listen_nonblocking_failure_witness :
  listen_run 3 quiet_engine blocking_listener server_call =
  ([LBind "127.0.0.1:8080"; LSetNonblocking], [],
   Some (Err (io_error "Failed to set listener to non-blocking" "here" Head
                       "Operation not supported (os error 95)"))).
Proof.
  apply (listen_nonblocking_failure 3 quiet_engine blocking_listener server_call tt); reflexivity.
Defined.

(** The connections accepted successfully, in order. *)
Fixpoint accepted_conns (evs : list LEvent) : list Conn :=
  match evs with
  | [] => []
  | LAccept (AcceptOk c) :: evs' => c :: accepted_conns evs'
  | _ :: evs' => accepted_conns evs'
  end.

Lemma accepted_conns_app l1 l2 :
  accepted_conns (l1 ++ l2) = accepted_conns l1 ++ accepted_conns l2.
Proof.
  induction l1 as [|ev l1 IH]; [reflexivity|].
  destruct ev as [| | | |[]| |]; simpl; rewrite ?IH; reflexivity.
Qed.

Definition is_sleep (ev : LEvent) : bool :=
  match ev with LSleep _ => true | _ => false end.

Definition is_would_block (ev : LEvent) : bool :=
  match ev with LAccept (AcceptErr WouldBlock _) => true | _ => false end.

Section MoreLoopFacts.
Variable engine : Engine.
Variable listener : Listener.
Variable closure : Closure.
Variable single : bool.

Abbreviation body := (loop_body engine listener closure single).
Abbreviation aloop := (accept_loop engine listener closure single).

Lemma body_spawns_accepted k :
  snd (fst (body k)) = map (fun c => spawn_handler c closure) (accepted_conns (fst (fst (body k)))).
Proof. body_cases engine listener k; try destruct single; reflexivity. Qed.

Lemma accept_loop_spawns_accepted fuel k :
  snd (fst (aloop fuel k)) = map (fun c => spawn_handler c closure) (accepted_conns (fst (fst (aloop fuel k)))).
Proof.
  revert k. induction fuel as [|f IH]; intros k; [reflexivity|].
  simpl. pose proof (body_spawns_accepted k) as Ht.
  destruct (body k) as [[e t] nx]. simpl in Ht. destruct nx as [|x]; [|exact Ht].
  specialize (IH (S k)). destruct (aloop f (S k)) as [[e' t'] r']. simpl in *.
  rewrite accepted_conns_app, map_app, Ht, IH. reflexivity.
Qed.

Lemma body_interrupt k e t nx :
  body k = (e, t, nx) -> In (LCheckSignal true) e ->
  nx = Break ExitInterrupted /\ t = [] /\
  e = [LCheckSignal true; LEprint (newline ++ "Server shutting down.")%string].
Proof.
  body_cases engine listener k; intros Hb; try destruct single;
    injection Hb as <- <- <-; simpl; intros Hin;
    repeat match goal with H : _ \/ _ |- _ => destruct H end;
    try discriminate; try contradiction; auto.
Qed.

Lemma body_no_single_shot k : single = false -> snd (body k) <> Break ExitSingleShot.
Proof. intros Hs. rewrite Hs. body_cases engine listener k; simpl; discriminate. Qed.

Lemma body_sleeps k :
  List.length (filter is_sleep (fst (fst (body k)))) =
  List.length (filter is_would_block (fst (fst (body k)))) /\
  forall ms, In (LSleep ms) (fst (fst (body k))) -> ms = 50.
Proof.
  body_cases engine listener k; try destruct single; (split; [reflexivity|]); simpl;
    intros ms H; list_cases; congruence.
Qed.

End MoreLoopFacts.

(** ** Timeout of the saved variant [connect.SAV.rs]

    The backup file [connect.SAV.rs] (not declared as a module of the
    plugin) computes the timeout in three steps: the flag or 10 s as
    [Duration::from_nanos(.. as u64)], converted back with
    [as_nanos() as i64]; replaced by the plugin configuration's
    [Duration] when there is one; replaced by the flag when given. *)

Definition as_i64 (x : Z) : Z :=
  let m := x mod 2 ^ 64 in if 2 ^ 63 <=? m then m - 2 ^ 64 else m.

Definition sav_final_timeout (plugin_timeout : option Duration) (timeout_val : option Z) : Duration :=
  let timeout := duration_from_nanos (as_u64 (unwrap_or timeout_val 10000000000)) in
  let timeout_nanos := as_i64 timeout in
  let timeout_nanos := match plugin_timeout with Some v => v | None => timeout_nanos end in
  let timeout_nanos := match timeout_val with Some f => f | None => timeout_nanos end in
  duration_from_nanos (as_u64 timeout_nanos).

(** Every handler thread of [socket listen] serves a connection that was
    accepted successfully, with the call's closure: the threads are
    exactly the accepted connections, in accept order. *)
Theorem listen_threads_are_accepts fuel engine listener call :
  snd (fst (listen_run fuel engine listener call)) =
  map (fun c => spawn_handler c (lc_closure call))
      (accepted_conns (fst (fst (listen_run fuel engine listener call)))).
Proof.
  destruct (listen_run fuel engine listener call) as [[evs ths] r] eqn:Hrun.
  destruct (listen_run_cases _ _ _ _ _ _ _ Hrun)
    as [[e [-> [-> _]]]|[[e [-> [-> _]]]|[levs [r' [Hl [-> _]]]]]]; [reflexivity|reflexivity|].
  simpl. pose proof (accept_loop_spawns_accepted engine listener (lc_closure call) (lc_single call) fuel 0) as H.
  rewrite Hl in H. exact H.
Qed.

(** An interrupt is the only way the loop leaves with
    [ExitInterrupted]: once the signal check answers "interrupted", the
    loop prints the shutdown message and stops, with no further accept. *)
Theorem accept_loop_interrupt engine listener closure single fuel k evs ths r :
  accept_loop engine listener closure single fuel k = (evs, ths, r) ->
  (In (LCheckSignal true) evs <-> r = Some ExitInterrupted) /\
  (r = Some ExitInterrupted ->
   exists pre, evs = pre ++ [LCheckSignal true; LEprint (newline ++ "Server shutting down.")%string]).
Proof.
  revert k evs ths r. induction fuel as [|f IH]; intros k evs ths r.
  - simpl. intros H. injection H as <- <- <-. simpl. split; [split; [intros []|discriminate]|discriminate].
  - simpl. destruct (loop_body engine listener closure single k) as [[e t] nx] eqn:Hb.
    assert (He : In (LCheckSignal true) e -> nx = Break ExitInterrupted /\ t = [] /\
                 e = [LCheckSignal true; LEprint (newline ++ "Server shutting down.")%string])
      by (apply (body_interrupt engine listener closure single k); exact Hb).
    assert (Hx : nx = Break ExitInterrupted -> In (LCheckSignal true) e).
    { intros ->. revert Hb. body_cases engine listener k; intros Hb; try destruct single;
        inversion Hb; subst; simpl; auto. }
    destruct nx as [|x].
    + destruct (accept_loop engine listener closure single f (S k)) as [[e' t'] r'] eqn:Hl.
      intros H. injection H as <- <- <-.
      destruct (IH _ _ _ _ Hl) as [Hiff Hpre].
      assert (Hne : ~ In (LCheckSignal true) e) by (intros Hin; destruct (He Hin); discriminate).
      split.
      * rewrite in_app_iff. split; [intros [Hin|Hin]; [contradiction|now apply Hiff]|].
        intros Hr. right. now apply Hiff.
      * intros Hr. destruct (Hpre Hr) as [pre ->]. exists (e ++ pre). now rewrite app_assoc.
    + intros H. injection H as <- <- <-. split.
      * split; [intros Hin; destruct (He Hin) as [Hx' _]; now injection Hx' as ->|].
        intros Hr. injection Hr as ->. now apply Hx.
      * intros Hr. injection Hr as ->. destruct (He (Hx eq_refl)) as [_ [_ ->]].
        exists []. reflexivity.
Qed.

Lemma accept_loop_interrupt_witness :
  exists evs ths,
    accept_loop cancelled_engine one_client_listener echo_closure false 4 0 = (evs, ths, Some ExitInterrupted) /\
    exists pre, evs = pre ++ [LCheckSignal true; LEprint (newline ++ "Server shutting down.")%string].
Proof.
  exists [LCheckSignal true; LEprint (newline ++ "Server shutting down.")%string], [].
  assert (H : accept_loop cancelled_engine one_client_listener echo_closure false 4 0 =
              ([LCheckSignal true; LEprint (newline ++ "Server shutting down.")%string], [],
               Some ExitInterrupted)) by reflexivity.
  split; [exact H|].
  exact (proj2 (accept_loop_interrupt _ _ _ _ _ _ _ _ _ H) eq_refl).
Defined.

(** Without [--single-shot] the loop never leaves because of a served
    connection: it only stops on an interrupt or a fatal accept error. *)
Theorem accept_loop_multi_shot_exits engine listener closure fuel k x :
  snd (accept_loop engine listener closure false fuel k) = Some x ->
  x = ExitInterrupted \/ exists msg, x = ExitAcceptError msg.
Proof.
  revert k. induction fuel as [|f IH]; intros k; [discriminate|].
  simpl. pose proof (body_no_single_shot engine listener closure false k eq_refl) as Hns.
  destruct (loop_body engine listener closure false k) as [[e t] nx]. simpl in Hns.
  destruct nx as [|y].
  - specialize (IH (S k)). destruct (accept_loop engine listener closure false f (S k)) as [[e' t'] r'].
    exact IH.
  - simpl. intros H. injection H as <-.
    destruct y as [| |msg]; [now left|congruence|right; eauto].
Qed.

Lemma accept_loop_multi_shot_exits_witness :
  snd (accept_loop quiet_engine failing_listener echo_closure false 5 0) =
    Some (ExitAcceptError "Software caused connection abort (os error 103)") /\
  exists msg, ExitAcceptError "Software caused connection abort (os error 103)" = ExitAcceptError msg.
Proof.
  assert (H : snd (accept_loop quiet_engine failing_listener echo_closure false 5 0) =
              Some (ExitAcceptError "Software caused connection abort (os error 103)")) by reflexivity.
  split; [exact H|].
  destruct (accept_loop_multi_shot_exits _ _ _ _ _ _ H) as [Hx|Hx]; [discriminate|exact Hx].
Defined.

(** The loop sleeps once per "would block" accept and at no other time,
    and always for 50 ms. *)
Theorem accept_loop_sleeps engine listener closure single fuel k :
  List.length (filter is_sleep (fst (fst (accept_loop engine listener closure single fuel k)))) =
  List.length (filter is_would_block (fst (fst (accept_loop engine listener closure single fuel k)))) /\
  forall ms, In (LSleep ms) (fst (fst (accept_loop engine listener closure single fuel k))) -> ms = 50.
Proof.
  revert k. induction fuel as [|f IH]; intros k; [simpl; split; [reflexivity|tauto]|].
  simpl. pose proof (body_sleeps engine listener closure single k) as [Hc Hm].
  destruct (loop_body engine listener closure single k) as [[e t] nx]. simpl in Hc, Hm.
  destruct nx as [|x]; [|simpl; split; assumption].
  specialize (IH (S k)).
  destruct (accept_loop engine listener closure single f (S k)) as [[e' t'] r']. simpl in *.
  destruct IH as [Hc' Hm']. split.
  - rewrite !filter_app, !length_app. lia.
  - intros ms Hin. apply in_app_or in Hin. destruct Hin; auto.
Qed.

(** With [--single-shot] an invocation of [socket listen] spawns at most
    one handler thread. *)
Theorem listen_single_shot_one_thread fuel engine listener call :
  lc_single call = true ->
  (List.length (snd (fst (listen_run fuel engine listener call))) <= 1)%nat.
Proof.
  intros Hs.
  destruct (listen_run fuel engine listener call) as [[evs ths] r] eqn:Hrun. simpl.
  destruct (listen_run_cases _ _ _ _ _ _ _ Hrun)
    as [[e [_ [-> _]]]|[[e [_ [-> _]]]|[levs [r' [Hl _]]]]]; [simpl; lia|simpl; lia|].
  rewrite Hs in Hl. clear Hrun.
  enough (Hall : forall k levs ths r',
            accept_loop engine listener (lc_closure call) true fuel k = (levs, ths, r') ->
            (List.length ths <= 1)%nat) by exact (Hall _ _ _ _ Hl).
  clear Hl levs r' ths. induction fuel as [|f IH]; intros k levs ths r'; simpl.
  - intros H. injection H as _ <- _. simpl. lia.
  - body_cases engine listener k; simpl.
    + intros H. injection H as _ <- _. simpl. lia.
    + intros H. injection H as _ <- _. simpl. lia.
    + destruct (accept_loop engine listener (lc_closure call) true f (S k)) as [[e' t'] r''] eqn:Hl.
      intros H. injection H as _ <- _. simpl. now apply (IH (S k) e' t' r'').
    + intros H. injection H as _ <- _. simpl. lia.
Qed.

Definition single_call : ListenCall := mkListenCall "127.0.0.1" 8080 echo_closure true.

Lemma listen_single_shot_one_thread_witness :
  lc_single single_call = true /\
  (List.length (snd (fst (listen_run 10 quiet_engine one_client_listener single_call))) <= 1)%nat.
Proof. split; [reflexivity|apply listen_single_shot_one_thread; reflexivity]. Defined.

(** In [connect.SAV.rs] the flag takes precedence over the plugin
    configuration, which takes precedence over the built-in 10 s; the
    result differs from the live [connect.rs] exactly when no flag is
    given and the configuration holds a duration other than 10 s. *)
Theorem sav_timeout_precedence plugin_timeout timeout_val :
  sav_final_timeout plugin_timeout timeout_val =
    match timeout_val with
    | Some f => as_u64 f
    | None => match plugin_timeout with Some d => as_u64 d | None => 10000000000 end
    end /\
  (sav_final_timeout plugin_timeout timeout_val = connect_timeout timeout_val <->
   timeout_val <> None \/ plugin_timeout = None \/
   exists d, plugin_timeout = Some d /\ as_u64 d = 10000000000).
Proof.
  assert (Hdef : as_u64 (as_i64 (as_u64 10000000000)) = 10000000000) by reflexivity.
  unfold sav_final_timeout, connect_timeout, duration_from_nanos, unwrap_or.
  destruct timeout_val as [f|]; destruct plugin_timeout as [d|]; split; try reflexivity;
    try solve [split; [intros _; left; discriminate|reflexivity]];
    try exact Hdef.
  - split; [intros H; right; right; eauto|].
    intros [H|[H|[d' [Hd Hv]]]]; [congruence|discriminate|injection Hd as ->; exact Hv].
  - split; [intros _; right; left; reflexivity|intros _; exact Hdef].
Qed.
